(** * An immutable bit set with an inline and a heap representation

    Shallow embedding of [bitset.go] (package [bitset]) and the properties of
    its three Set operations ([Has], [Add], [Remove]) and of its Builder.

    Go slices are references into backing arrays, and the Builder writes
    into its array in place while a Set never does.  The embedding therefore
    keeps an explicit store of backing arrays and runs every function in a
    state-and-panic monad over that store: an index out of range, a failed
    type assertion or a negative [make] is a panic ([None]). *)

From Stdlib Require Import ZArith Lia Bool List.
From stdpp Require Import base option list.

Local Open Scope Z_scope.

(** ** Machine words *)

Module Word.

(** [uint64] values are integers in [0, 2^64). *)
Definition modulus : Z := 2 ^ 64.

Definition wrap64 (z : Z) : Z := z mod modulus.

Definition is_uint64 (w : Z) : Prop := 0 <= w < modulus.

Definition is_uint32 (i : Z) : Prop := 0 <= i < 2 ^ 32.

(** [1 << n] at type [uint64]: bits shifted past position 63 are lost. *)
Definition shl1 (n : Z) : Z := wrap64 (Z.shiftl 1 n).

(** Go's [int] is taken to be 64 bits wide, two's complement. *)
Definition wrap_int (z : Z) : Z := (z + 2 ^ 63) mod 2 ^ 64 - 2 ^ 63.

End Word.

Import Word.

(** ** The store of backing arrays *)

(** An array is named by its allocation number. *)
Abbreviation loc := nat.

Abbreviation store := (list (list Z)).

(** A slice header: the backing array and the length.  Every slice of the
    program starts at offset 0 of its array. *)
Record slice : Type := Slice { arr : loc; len : Z }.

(** The state-and-panic monad. *)
Definition M (A : Type) : Type := store -> option (A * store).

Definition ret {A : Type} (a : A) : M A := fun h => Some (a, h).

Definition bind {A B : Type} (m : M A) (k : A -> M B) : M B :=
  fun h => match m h with
           | Some (a, h') => k a h'
           | None => None
           end.

Definition panic {A : Type} : M A := fun _ => None.

Declare Scope go_scope.
Delimit Scope go_scope with go.
Notation "'let*' x ':=' m 'in' k" := (bind m (fun x => k))
  (at level 10, x name, m at level 100, k at level 200) : go_scope.
Notation "m ';;' k" := (bind m (fun _ => k))
  (at level 100, k at level 200, right associativity) : go_scope.

Local Open Scope go_scope.

(** [make([]uint64, n)]: a fresh zeroed array; panics when [n] is negative.
    Memory is not bounded here: an allocation of any other length succeeds. *)
Definition make (n : Z) : M slice := fun h =>
  if n <? 0 then None
  else Some (Slice (length h) n, h ++ [replicate (Z.to_nat n) 0]).

(** [s[i]] as a value: panics outside [0 <= i < len(s)]. *)
Definition index (s : slice) (i : Z) : M Z := fun h =>
  if (0 <=? i) && (i <? len s) then
    match h !! arr s with
    | Some a => match a !! Z.to_nat i with
                | Some w => Some (w, h)
                | None => None
                end
    | None => None
    end
  else None.

(** [s[i] = w]: panics outside [0 <= i < len(s)]. *)
Definition assign (s : slice) (i : Z) (w : Z) : M unit := fun h =>
  if (0 <=? i) && (i <? len s) then
    match h !! arr s with
    | Some a => if (Z.to_nat i <? length a)%nat
                then Some (tt, <[arr s := <[Z.to_nat i := w]> a]> h)
                else None
    | None => None
    end
  else None.

(** [s[:hi]]: panics unless [0 <= hi <= cap(s)]; the capacity of a slice that
    starts at offset 0 is the length of its array. *)
Definition reslice (s : slice) (hi : Z) : M slice := fun h =>
  match h !! arr s with
  | Some a => if (0 <=? hi) && (hi <=? Z.of_nat (length a))
              then Some (Slice (arr s) hi, h)
              else None
  | None => None
  end.

(** [copy(dst, src)]: copies [min(len(dst), len(src))] elements and returns
    that number. *)
Definition copy (dst src : slice) : M Z := fun h =>
  match h !! arr dst, h !! arr src with
  | Some d, Some s =>
      let n := Z.to_nat (Z.min (len dst) (len src)) in
      if (n <=? length d)%nat && (n <=? length s)%nat
      then Some (Z.of_nat n, <[arr dst := take n s ++ drop n d]> h)
      else None
  | _, _ => None
  end.

(** [s[i] |= w] and [s[i] &^= w]. *)
Definition or_assign (s : slice) (i : Z) (w : Z) : M unit :=
  let* old := index s i in assign s i (Z.lor old w).

Definition andnot_assign (s : slice) (i : Z) (w : Z) : M unit :=
  let* old := index s i in assign s i (Z.ldiff old w).

(** ** The Set interface and its two implementations *)

(** [Set] is implemented by [bitSet64] (one inline word) and by
    [largeBitSet] (a slice of words). *)
Inductive BitSet : Type :=
  | bitSet64 (b : Z)
  | largeBitSet (b : slice).

(** [Builder] is implemented by [bitSet64] and by [bitSetBuilder]. *)
Inductive Builder : Type :=
  | bitSet64_Builder (b : Z)
  | bitSetBuilder (b : slice).

Definition New : BitSet := bitSet64 0.

(** *** bitSet64 *)

Definition bitSet64_Has (b : Z) (bitIndex : Z) : bool :=
  if bitIndex >=? 64 then false
  else negb (Z.land b (shl1 bitIndex) =? 0).

Definition bitSet64_Add (b : Z) (bitIndex : Z) : M BitSet :=
  if bitIndex <? 64 then ret (bitSet64 (Z.lor b (shl1 bitIndex)))
  else
    let idx := bitIndex / 64 in
    let* newBits := make (idx + 1) in
    assign newBits 0 b;;
    or_assign newBits idx (shl1 (bitIndex mod 64));;
    ret (largeBitSet newBits).

Definition bitSet64_Remove (b : Z) (bitIndex : Z) : BitSet :=
  if bitIndex >=? 64 then bitSet64 b
  else bitSet64 (Z.ldiff b (shl1 bitIndex)).

(** *** largeBitSet *)

Definition largeBitSet_Has (b : slice) (bitIndex : Z) : M bool :=
  let idx := bitIndex / 64 in
  if idx >=? len b then ret false
  else
    let* w := index b idx in
    ret (negb (Z.land w (shl1 (bitIndex mod 64)) =? 0)).

Definition largeBitSet_Add (b : slice) (bitIndex : Z) : M BitSet :=
  let idx := bitIndex / 64 in
  let* newBits := make (Z.max (len b) (idx + 1)) in
  copy newBits b;;
  or_assign newBits idx (shl1 (bitIndex mod 64));;
  ret (largeBitSet newBits).

(** The loop of [Remove]: [for lastIdx >= 0 && (b[lastIdx] == 0 ||
    (lastIdx == idx && b[lastIdx] == 1<<(bitIndex%64))) { lastIdx-- }].
    The counter is carried as [n = lastIdx + 1], so that [n = 0] is the exit
    by [lastIdx < 0]; the result is the final [lastIdx]. *)
Fixpoint Remove_loop (b : slice) (idx bitIndex : Z) (n : nat) : M Z :=
  match n with
  | O => ret (-1)
  | S m =>
      let lastIdx := Z.of_nat m in
      let* w := index b lastIdx in
      if (w =? 0) || ((lastIdx =? idx) && (w =? shl1 (bitIndex mod 64)))
      then Remove_loop b idx bitIndex m
      else ret lastIdx
  end.

Definition largeBitSet_Remove (b : slice) (bitIndex : Z) : M BitSet :=
  let idx := bitIndex / 64 in
  if idx >=? len b then ret (largeBitSet b)
  else
    let* lastIdx := Remove_loop b idx bitIndex (Z.to_nat (len b)) in
    if lastIdx <=? 0 then
      let* b0 := index b 0 in
      ret (bitSet64 (if negb (b0 =? 0) && (idx =? 0)
                     then Z.ldiff b0 (shl1 bitIndex)
                     else b0))
    else
      let* bits := reslice b (lastIdx + 1) in
      let* newBits := make (len bits) in
      copy newBits bits;;
      (if idx <? len newBits
       then andnot_assign newBits idx (shl1 (bitIndex mod 64))
       else ret tt);;
      ret (largeBitSet newBits).

(** *** Dispatch through the interface *)

Definition Has (s : BitSet) (bitIndex : Z) : M bool :=
  match s with
  | bitSet64 b => ret (bitSet64_Has b bitIndex)
  | largeBitSet b => largeBitSet_Has b bitIndex
  end.

Definition Add (s : BitSet) (bitIndex : Z) : M BitSet :=
  match s with
  | bitSet64 b => bitSet64_Add b bitIndex
  | largeBitSet b => largeBitSet_Add b bitIndex
  end.

Definition Remove (s : BitSet) (bitIndex : Z) : M BitSet :=
  match s with
  | bitSet64 b => ret (bitSet64_Remove b bitIndex)
  | largeBitSet b => largeBitSet_Remove b bitIndex
  end.

(** ** The Builder *)

(** The type assertions [s.(bitSet64)] and [s.(largeBitSet)]. *)
Definition assert_bitSet64 (s : BitSet) : M Z :=
  match s with
  | bitSet64 b => ret b
  | largeBitSet _ => panic
  end.

Definition assert_largeBitSet (s : BitSet) : M slice :=
  match s with
  | bitSet64 _ => panic
  | largeBitSet b => ret b
  end.

Definition bitSet64_With (b : Z) (bitIndex : Z) : M Builder :=
  let* s := bitSet64_Add b bitIndex in
  if bitIndex <? 64 then
    let* w := assert_bitSet64 s in ret (bitSet64_Builder w)
  else
    let* l := assert_largeBitSet s in ret (bitSetBuilder l).

Definition bitSetBuilder_With (b : slice) (bitIndex : Z) : M Builder :=
  let idx := bitIndex / 64 in
  if idx <? len b then
    or_assign b idx (shl1 (bitIndex mod 64));;
    ret (bitSetBuilder b)
  else
    let* s := largeBitSet_Add b bitIndex in
    let* l := assert_largeBitSet s in
    ret (bitSetBuilder l).

Definition With (bld : Builder) (bitIndex : Z) : M Builder :=
  match bld with
  | bitSet64_Builder b => bitSet64_With b bitIndex
  | bitSetBuilder b => bitSetBuilder_With b bitIndex
  end.

(** [for _, i := range bitIndices { bld = bld.With(i) }; return bld], the
    body of both [WithMany] methods. *)
Fixpoint WithMany (bld : Builder) (bitIndices : list Z) : M Builder :=
  match bitIndices with
  | [] => ret bld
  | i :: rest => let* bld' := With bld i in WithMany bld' rest
  end.

Definition Build (bld : Builder) : BitSet :=
  match bld with
  | bitSet64_Builder b => bitSet64 b
  | bitSetBuilder b => largeBitSet b
  end.

Definition NewBuilder (minCapacity : Z) : M Builder :=
  if minCapacity <=? 64 then ret (bitSet64_Builder 0)
  else
    let* bits := make (Z.quot (wrap_int (minCapacity + 63)) 64) in
    ret (bitSetBuilder bits).

(** ** What a value denotes *)

(** The words a slice holds, when the slice lies inside its array. *)
Definition slice_words (h : store) (s : slice) : option (list Z) :=
  match h !! arr s with
  | Some a =>
      if (0 <=? len s) && (len s <=? Z.of_nat (length a))
      then Some (take (Z.to_nat (len s)) a)
      else None
  | None => None
  end.

(** The representation of a Set: the inline word, or the word sequence. *)
Inductive repr : Type :=
  | Inline (w : Z)
  | Heap (ws : list Z).

Definition repr_of (h : store) (s : BitSet) : option repr :=
  match s with
  | bitSet64 b => Some (Inline b)
  | largeBitSet b => Heap <$> slice_words h b
  end.

(** The result of a computation, without the final store. *)
Definition result {A : Type} (m : M A) (h : store) : option A := fst <$> m h.

(** Folding [Add] over a sequence of indices. *)
Fixpoint AddMany (s : BitSet) (bitIndices : list Z) : M BitSet :=
  match bitIndices with
  | [] => ret s
  | i :: rest => let* s' := Add s i in AddMany s' rest
  end.

(** ** The results the operations compute, on representations *)

(** These functions give, for each operation, the representation of its
    result from the representation of its argument.  They are not a second
    model: the lemmas [largeBitSet_Has_run], [Add_run] and [Remove_run] below
    prove that the code above computes them. *)

Definition words_has (ws : list Z) (i : Z) : bool :=
  match ws !! Z.to_nat (i / 64) with
  | Some w => negb (Z.land w (shl1 (i mod 64)) =? 0)
  | None => false
  end.

Definition words_add (ws : list Z) (i : Z) : list Z :=
  let idx := Z.to_nat (i / 64) in
  alter (fun w => Z.lor w (shl1 (i mod 64))) idx
        (ws ++ replicate (idx + 1 - length ws)%nat 0).

(** The test of the loop of [Remove] on the word [w] of slot [j]. *)
Definition skipped (idx bit j w : Z) : bool :=
  (w =? 0) || ((j =? idx) && (w =? bit)).

Fixpoint last_kept (ws : list Z) (idx bit : Z) (n : nat) : Z :=
  match n with
  | O => -1
  | S m => if skipped idx bit (Z.of_nat m) (ws !!! m)
           then last_kept ws idx bit m
           else Z.of_nat m
  end.

Definition repr_has (r : repr) (i : Z) : bool :=
  match r with
  | Inline b => bitSet64_Has b i
  | Heap ws => words_has ws i
  end.

Definition repr_add (r : repr) (i : Z) : repr :=
  match r with
  | Inline b =>
      if i <? 64 then Inline (Z.lor b (shl1 i))
      else Heap (words_add [b] i)
  | Heap ws => Heap (words_add ws i)
  end.

Definition repr_remove (r : repr) (i : Z) : repr :=
  match r with
  | Inline b => Inline (if i >=? 64 then b else Z.ldiff b (shl1 i))
  | Heap ws =>
      let idx := i / 64 in
      if idx >=? Z.of_nat (length ws) then Heap ws
      else
        let lastIdx := last_kept ws idx (shl1 (i mod 64)) (length ws) in
        if lastIdx <=? 0 then
          let b0 := ws !!! 0%nat in
          Inline (if negb (b0 =? 0) && (idx =? 0)
                  then Z.ldiff b0 (shl1 i) else b0)
        else
          let bits := take (Z.to_nat (lastIdx + 1)) ws in
          Heap (if idx <? lastIdx + 1
                then alter (fun w => Z.ldiff w (shl1 (i mod 64)))
                           (Z.to_nat idx) bits
                else bits)
  end.

(** ** Properties of representations *)

(** A heap form is minimal when it has at least two words and its last word
    is not zero. *)
Definition heap_minimal (ws : list Z) : Prop :=
  (2 <= length ws)%nat /\ ws !!! (length ws - 1)%nat <> 0.

Definition minimal (r : repr) : Prop :=
  match r with
  | Inline _ => True
  | Heap ws => heap_minimal ws
  end.

(** Every word is a [uint64], and every slot can be named by a [uint32]
    index. *)
Definition well_formed (r : repr) : Prop :=
  match r with
  | Inline w => is_uint64 w
  | Heap ws => Forall is_uint64 ws /\ Z.of_nat (length ws) <= 2 ^ 26
  end.

(** The scan of [Remove] as the specification words it: going backward from
    the last slot, a word is skipped when it is all-zero, or when it is in
    the target slot and its sole set bit is the one being removed;
    [lastIdx] is the first slot not skipped, or -1. *)
Definition spec_skips (ws : list Z) (idx bit : Z) (j : nat) : Prop :=
  ws !!! j = 0 \/ (Z.of_nat j = idx /\ ws !!! j = bit).

Definition spec_lastIdx (ws : list Z) (idx bit : Z) (lastIdx : Z) : Prop :=
  -1 <= lastIdx < Z.of_nat (length ws)
  /\ (forall j : nat,
         lastIdx < Z.of_nat j < Z.of_nat (length ws) -> spec_skips ws idx bit j)
  /\ (0 <= lastIdx -> ~ spec_skips ws idx bit (Z.to_nat lastIdx)).

(** The slot of index [i] lies outside the representation. *)
Definition slot_out_of_range (r : repr) (i : Z) : Prop :=
  match r with
  | Inline _ => 64 <= i
  | Heap ws => Z.of_nat (length ws) <= i / 64
  end.

(** ** Values obtained through the interface *)

(** The Set values obtained from [New] by [Add] and [Remove] alone, each with
    a store it lives in; other allocations may have happened since the value
    was made. *)
Inductive reachable : store -> BitSet -> Prop :=
  | reach_New h : reachable h New
  | reach_Add h s i t h' :
      reachable h s -> is_uint32 i -> Add s i h = Some (t, h') ->
      reachable h' t
  | reach_Remove h s i t h' :
      reachable h s -> is_uint32 i -> Remove s i h = Some (t, h') ->
      reachable h' t
  | reach_later h ext s : reachable h s -> reachable (h ++ ext) s.

(** The same, with the values built by a Builder whose capacity hint does
    not exceed 64. *)
Inductive produced : store -> BitSet -> Prop :=
  | prod_New h : produced h New
  | prod_Build h minCapacity bitIndices bld h' :
      minCapacity <= 64 -> Forall is_uint32 bitIndices ->
      (let* b := NewBuilder minCapacity in WithMany b bitIndices) h
      = Some (bld, h') ->
      produced h' (Build bld)
  | prod_Add h s i t h' :
      produced h s -> is_uint32 i -> Add s i h = Some (t, h') ->
      produced h' t
  | prod_Remove h s i t h' :
      produced h s -> is_uint32 i -> Remove s i h = Some (t, h') ->
      produced h' t
  | prod_later h ext s : produced h s -> produced (h ++ ext) s.

(** ** Running the primitives *)

Section Primitives.

Implicit Types (h : store) (s : slice) (a : list Z).

Lemma bind_run {A B : Type} (m : M A) (k : A -> M B) h x h' :
  m h = Some (x, h') -> bind m k h = k x h'.
Proof. unfold bind. intros ->. reflexivity. Qed.

Lemma store_lookup_fresh h a : (h ++ [a]) !! length h = Some a.
Proof. by apply list_lookup_middle. Qed.

Lemma store_insert_fresh h a a' : <[length h := a']> (h ++ [a]) = h ++ [a'].
Proof.
  rewrite insert_app_r_alt by lia.
  by rewrite Nat.sub_diag.
Qed.

Lemma store_lookup_old h a (l : loc) x :
  h !! l = Some x -> (h ++ [a]) !! l = Some x.
Proof. apply lookup_app_l_Some. Qed.

Lemma make_run n h :
  0 <= n ->
  make n h = Some (Slice (length h) n, h ++ [replicate (Z.to_nat n) 0]).
Proof.
  intros Hn. unfold make.
  destruct (Z.ltb_spec n 0); [lia | reflexivity].
Qed.

Lemma index_run s i h a w :
  h !! arr s = Some a -> a !! Z.to_nat i = Some w -> 0 <= i < len s ->
  index s i h = Some (w, h).
Proof.
  intros Ha Hw Hi. unfold index. rewrite Ha, Hw.
  destruct (Z.leb_spec 0 i); [| lia].
  destruct (Z.ltb_spec i (len s)); [reflexivity | lia].
Qed.

Lemma assign_run s i w h a :
  h !! arr s = Some a -> 0 <= i < len s -> (Z.to_nat i < length a)%nat ->
  assign s i w h = Some (tt, <[arr s := <[Z.to_nat i := w]> a]> h).
Proof.
  intros Ha Hi Hlt. unfold assign. rewrite Ha.
  destruct (Z.leb_spec 0 i); [| lia].
  destruct (Z.ltb_spec i (len s)); [| lia].
  destruct (Nat.ltb_spec (Z.to_nat i) (length a)); [reflexivity | lia].
Qed.

Lemma copy_run dst src h d a :
  h !! arr dst = Some d -> h !! arr src = Some a ->
  let n := Z.to_nat (Z.min (len dst) (len src)) in
  (n <= length d)%nat -> (n <= length a)%nat ->
  copy dst src h = Some (Z.of_nat n, <[arr dst := take n a ++ drop n d]> h).
Proof.
  intros Hd Ha n Hnd Hna. unfold copy. rewrite Hd, Ha. fold n.
  destruct (Nat.leb_spec n (length d)); [| lia].
  destruct (Nat.leb_spec n (length a)); [reflexivity | lia].
Qed.

Lemma or_assign_run s i w h a old :
  h !! arr s = Some a -> a !! Z.to_nat i = Some old -> 0 <= i < len s ->
  or_assign s i w h
  = Some (tt, <[arr s := alter (fun x => Z.lor x w) (Z.to_nat i) a]> h).
Proof.
  intros Ha Hold Hi. unfold or_assign.
  rewrite (bind_run _ _ _ _ _ (index_run _ _ _ _ _ Ha Hold Hi)).
  rewrite (assign_run _ _ _ _ _ Ha Hi) by (by eapply lookup_lt_Some).
  do 3 f_equal. symmetry. apply list_eq. intros j.
  rewrite list_lookup_alter.
  destruct (decide (Z.to_nat i = j)) as [<- |].
  - rewrite list_lookup_insert_eq by (by eapply lookup_lt_Some).
    by rewrite Hold.
  - by rewrite list_lookup_insert_ne.
Qed.

Lemma andnot_assign_run s i w h a old :
  h !! arr s = Some a -> a !! Z.to_nat i = Some old -> 0 <= i < len s ->
  andnot_assign s i w h
  = Some (tt, <[arr s := alter (fun x => Z.ldiff x w) (Z.to_nat i) a]> h).
Proof.
  intros Ha Hold Hi. unfold andnot_assign.
  rewrite (bind_run _ _ _ _ _ (index_run _ _ _ _ _ Ha Hold Hi)).
  rewrite (assign_run _ _ _ _ _ Ha Hi) by (by eapply lookup_lt_Some).
  do 3 f_equal. symmetry. apply list_eq. intros j.
  rewrite list_lookup_alter.
  destruct (decide (Z.to_nat i = j)) as [<- |].
  - rewrite list_lookup_insert_eq by (by eapply lookup_lt_Some).
    by rewrite Hold.
  - by rewrite list_lookup_insert_ne.
Qed.

(** What [slice_words] says about the store. *)
Lemma slice_words_Some h s ws :
  slice_words h s = Some ws ->
  exists a, h !! arr s = Some a /\ 0 <= len s <= Z.of_nat (length a)
            /\ ws = take (Z.to_nat (len s)) a.
Proof.
  unfold slice_words. destruct (h !! arr s) as [a|]; [| discriminate].
  destruct (Z.leb_spec 0 (len s)); [| discriminate].
  destruct (Z.leb_spec (len s) (Z.of_nat (length a))); [| discriminate].
  cbn. intros [= <-]. exists a. auto with lia.
Qed.

Lemma slice_words_length h s ws :
  slice_words h s = Some ws -> Z.of_nat (length ws) = len s.
Proof.
  intros (a & _ & Hlen & ->)%slice_words_Some.
  rewrite length_take. lia.
Qed.

Lemma slice_words_lookup h s ws a (j : nat) :
  slice_words h s = Some ws -> h !! arr s = Some a ->
  (j < length ws)%nat -> a !! j = Some (ws !!! j).
Proof.
  intros (a' & Ha' & Hlen & ->)%slice_words_Some Ha Hj.
  assert (a' = a) as -> by congruence.
  rewrite length_take in Hj.
  rewrite list_lookup_total_alt, lookup_take_lt by lia.
  destruct (lookup_lt_is_Some_2 a j) as [w Hw]; [lia |].
  by rewrite Hw.
Qed.

Lemma slice_words_fresh h a :
  slice_words (h ++ [a]) (Slice (length h) (Z.of_nat (length a))) = Some a.
Proof.
  unfold slice_words. cbn [arr len]. rewrite store_lookup_fresh.
  destruct (Z.leb_spec 0 (Z.of_nat (length a))); [| lia].
  destruct (Z.leb_spec (Z.of_nat (length a)) (Z.of_nat (length a))); [| lia].
  cbn. rewrite Nat2Z.id. by rewrite firstn_all.
Qed.

(** Extending the store keeps what every existing slice holds. *)
Lemma slice_words_ext h ext s ws :
  slice_words h s = Some ws -> slice_words (h ++ ext) s = Some ws.
Proof.
  intros Hs. destruct (slice_words_Some _ _ _ Hs) as (a & Ha & _ & _).
  revert Hs. unfold slice_words.
  rewrite (lookup_app_l_Some _ ext _ _ Ha). by rewrite Ha.
Qed.

End Primitives.

(** ** Running the operations *)

Section Runs.

Implicit Types (h : store) (b : slice) (ws : list Z).

Lemma idx_nonneg i : 0 <= i -> 0 <= i / 64.
Proof. intros. apply Z.div_pos; lia. Qed.

Lemma largeBitSet_Has_run h b ws i :
  slice_words h b = Some ws -> 0 <= i ->
  largeBitSet_Has b i h = Some (words_has ws i, h).
Proof.
  intros Hs Hi. pose proof (idx_nonneg i Hi) as Hidx.
  pose proof (slice_words_length _ _ _ Hs) as Hlen.
  unfold largeBitSet_Has, words_has.
  destruct (Z.geb_spec (i / 64) (len b)) as [Hge | Hlt].
  - rewrite lookup_ge_None_2 by lia. reflexivity.
  - destruct (slice_words_Some _ _ _ Hs) as (a & Ha & _ & _).
    assert (Z.to_nat (i / 64) < length ws)%nat as Hj by lia.
    pose proof (slice_words_lookup _ _ _ _ _ Hs Ha Hj) as Hw.
    rewrite (bind_run _ _ _ _ _ (index_run _ _ _ _ _ Ha Hw ltac:(lia))).
    rewrite list_lookup_lookup_total_lt by lia. reflexivity.
Qed.

Lemma length_words_add ws i :
  length (words_add ws i)
  = Nat.max (length ws) (Z.to_nat (i / 64) + 1).
Proof.
  unfold words_add. rewrite length_alter, length_app, length_replicate. lia.
Qed.

Lemma largeBitSet_Add_run h b ws i :
  slice_words h b = Some ws -> 0 <= i ->
  largeBitSet_Add b i h
  = Some (largeBitSet (Slice (length h) (Z.of_nat (length (words_add ws i)))),
          h ++ [words_add ws i]).
Proof.
  intros Hs Hi. pose proof (idx_nonneg i Hi) as Hidx.
  pose proof (slice_words_length _ _ _ Hs) as Hlen.
  destruct (slice_words_Some _ _ _ Hs) as (a & Ha & Hcap & Hws).
  unfold largeBitSet_Add.
  set (N := Z.max (len b) (i / 64 + 1)).
  assert (Z.of_nat (length (words_add ws i)) = N) as HN
    by (rewrite length_words_add; lia).
  rewrite (bind_run _ _ _ _ _ (make_run N h ltac:(lia))).
  set (newBits := Slice (length h) N).
  assert (Z.to_nat (Z.min (len newBits) (len b)) = length ws) as Hmin
    by (unfold newBits, N; cbn [len]; lia).
  erewrite bind_run; cycle 1.
  { apply (copy_run newBits b _ (replicate (Z.to_nat N) 0) a).
    - apply store_lookup_fresh.
    - by apply store_lookup_old.
    - rewrite Hmin, length_replicate. lia.
    - rewrite Hmin. lia. }
  cbn [arr newBits]. rewrite store_insert_fresh, Hmin.
  rewrite drop_replicate. replace (take (length ws) a) with ws
    by (rewrite Hws at 1; f_equal; lia).
  set (grown := ws ++ replicate (Z.to_nat N - length ws) 0).
  assert (Z.to_nat (i / 64) < length grown)%nat as Hin
    by (unfold grown; rewrite length_app, length_replicate; lia).
  destruct (lookup_lt_is_Some_2 _ _ Hin) as [old Hold].
  erewrite bind_run; cycle 1.
  { apply (or_assign_run newBits _ _ _ grown old).
    - apply store_lookup_fresh.
    - exact Hold.
    - cbn [len newBits]. lia. }
  cbn [arr newBits]. rewrite store_insert_fresh.
  rewrite HN. unfold ret, words_add, grown, newBits.
  replace (Z.to_nat N - length ws)%nat
    with (Z.to_nat (i / 64) + 1 - length ws)%nat by (unfold N; lia).
  reflexivity.
Qed.

Lemma bitSet64_Add_run h w i :
  64 <= i ->
  bitSet64_Add w i h
  = Some (largeBitSet (Slice (length h) (Z.of_nat (length (words_add [w] i)))),
          h ++ [words_add [w] i]).
Proof.
  intros Hi. assert (1 <= i / 64) as Hidx
    by (apply Z.div_le_lower_bound; lia).
  unfold bitSet64_Add. destruct (Z.ltb_spec i 64); [lia |].
  set (N := i / 64 + 1).
  assert (Z.of_nat (length (words_add [w] i)) = N) as HN
    by (rewrite length_words_add; cbn [length]; lia).
  rewrite (bind_run _ _ _ _ _ (make_run N h ltac:(lia))).
  set (newBits := Slice (length h) N).
  erewrite bind_run; cycle 1.
  { apply (assign_run newBits 0 w _ (replicate (Z.to_nat N) 0)).
    - apply store_lookup_fresh.
    - cbn [len newBits]. lia.
    - rewrite length_replicate. lia. }
  cbn [arr newBits]. rewrite store_insert_fresh.
  set (first := <[Z.to_nat 0:=w]> (replicate (Z.to_nat N) 0)).
  assert (first = [w] ++ replicate (Z.to_nat (i / 64) + 1 - 1) 0) as Hfirst.
  { unfold first. replace (Z.to_nat N) with (S (Z.to_nat (i / 64))) by lia.
    replace (Z.to_nat (i / 64) + 1 - 1)%nat with (Z.to_nat (i / 64)) by lia.
    reflexivity. }
  assert (Z.to_nat (i / 64) < length first)%nat as Hin
    by (unfold first; rewrite length_insert, length_replicate; lia).
  destruct (lookup_lt_is_Some_2 _ _ Hin) as [old Hold].
  erewrite bind_run; cycle 1.
  { apply (or_assign_run newBits _ _ _ first old).
    - apply store_lookup_fresh.
    - exact Hold.
    - cbn [len newBits]. lia. }
  cbn [arr newBits]. rewrite store_insert_fresh.
  rewrite HN, Hfirst. reflexivity.
Qed.

End Runs.
Section RemoveRuns.

Implicit Types (h : store) (b : slice) (ws : list Z).

Lemma last_kept_bounds ws idx bit n : -1 <= last_kept ws idx bit n < Z.of_nat n.
Proof.
  induction n as [| m IH]; cbn [last_kept]; [lia |].
  destruct (skipped idx bit (Z.of_nat m) (ws !!! m)); lia.
Qed.

Lemma Remove_loop_run h b ws idx i n :
  slice_words h b = Some ws -> (n <= length ws)%nat ->
  Remove_loop b idx i n h
  = Some (last_kept ws idx (shl1 (i mod 64)) n, h).
Proof.
  intros Hs. pose proof (slice_words_length _ _ _ Hs) as Hlen.
  destruct (slice_words_Some _ _ _ Hs) as (a & Ha & _ & _).
  induction n as [| m IH]; intros Hn; [reflexivity |].
  cbn [Remove_loop last_kept].
  assert (m < length ws)%nat as Hm by lia.
  pose proof (slice_words_lookup _ _ _ _ _ Hs Ha Hm) as Hw.
  rewrite <- (Nat2Z.id m) in Hw at 1.
  rewrite (bind_run _ _ _ _ _ (index_run _ _ _ _ _ Ha Hw ltac:(lia))).
  unfold skipped.
  destruct ((ws !!! m =? 0)
            || (Z.of_nat m =? idx) && (ws !!! m =? shl1 (i mod 64))).
  - apply IH. lia.
  - reflexivity.
Qed.

Lemma largeBitSet_Remove_run h b ws i :
  slice_words h b = Some ws -> 0 <= i ->
  exists t ext,
    largeBitSet_Remove b i h = Some (t, h ++ ext)
    /\ repr_of (h ++ ext) t = Some (repr_remove (Heap ws) i).
Proof.
  intros Hs Hi. pose proof (idx_nonneg i Hi) as Hidx.
  pose proof (slice_words_length _ _ _ Hs) as Hlen.
  destruct (slice_words_Some _ _ _ Hs) as (a & Ha & Hcap & Hws).
  unfold largeBitSet_Remove, repr_remove. rewrite Hlen.
  destruct (Z.geb_spec (i / 64) (len b)) as [Hge | Hlt].
  { exists (largeBitSet b), []. rewrite app_nil_r. split; [reflexivity |].
    cbn [repr_of]. by rewrite Hs. }
  rewrite (bind_run _ _ _ _ _
             (Remove_loop_run _ _ _ (i / 64) i (Z.to_nat (len b)) Hs
                ltac:(lia))).
  replace (Z.to_nat (len b)) with (length ws) by lia.
  set (lastIdx := last_kept ws (i / 64) (shl1 (i mod 64)) (length ws)).
  pose proof (last_kept_bounds ws (i / 64) (shl1 (i mod 64)) (length ws))
    as Hbounds. fold lastIdx in Hbounds.
  destruct (Z.leb_spec lastIdx 0) as [Hle | Hgt].
  - assert (0 < length ws)%nat as H0 by lia.
    pose proof (slice_words_lookup _ _ _ _ _ Hs Ha H0) as Hw.
    rewrite (bind_run _ _ _ _ _
               (index_run b 0 _ _ _ Ha Hw ltac:(lia))).
    exists (bitSet64 (if negb (ws !!! 0%nat =? 0) && (i / 64 =? 0)
                      then Z.ldiff (ws !!! 0%nat) (shl1 i)
                      else ws !!! 0%nat)), [].
    rewrite app_nil_r. split; reflexivity.
  - set (k := Z.to_nat (lastIdx + 1)).
    assert (reslice b (lastIdx + 1) h = Some (Slice (arr b) (lastIdx + 1), h))
      as Hre.
    { unfold reslice. rewrite Ha.
      destruct (Z.leb_spec 0 (lastIdx + 1)); [| lia].
      destruct (Z.leb_spec (lastIdx + 1) (Z.of_nat (length a)));
        [reflexivity | lia]. }
    rewrite (bind_run _ _ _ _ _ Hre). cbn [len].
    rewrite (bind_run _ _ _ _ _ (make_run (lastIdx + 1) h ltac:(lia))).
    fold k.
    set (newBits := Slice (length h) (lastIdx + 1)).
    set (bits := Slice (arr b) (lastIdx + 1)).
    assert (Z.to_nat (Z.min (len newBits) (len bits)) = k) as Hmin
      by (unfold newBits, bits, k; cbn [len]; lia).
    erewrite bind_run; cycle 1.
    { apply (copy_run newBits bits _ (replicate k 0) a).
      - apply store_lookup_fresh.
      - by apply store_lookup_old.
      - rewrite Hmin, length_replicate. lia.
      - rewrite Hmin. lia. }
    rewrite Hmin. cbn [arr newBits]. rewrite store_insert_fresh.
    rewrite drop_replicate, Nat.sub_diag, app_nil_r.
    assert (take k a = take k ws) as ->
      by (rewrite Hws, take_take; f_equal; lia).
    assert (length (take k ws) = k) as Hk
      by (rewrite length_take; lia).
    change (len newBits) with (lastIdx + 1).
    destruct (Z.ltb_spec (i / 64) (lastIdx + 1)) as [Hin | Hout].
    + assert (Z.to_nat (i / 64) < length (take k ws))%nat as Hlt' by lia.
      destruct (lookup_lt_is_Some_2 _ _ Hlt') as [old Hold].
      erewrite bind_run; cycle 1.
      { apply (andnot_assign_run newBits _ _ _ (take k ws) old).
        - apply store_lookup_fresh.
        - exact Hold.
        - cbn [len newBits]. lia. }
      cbn [arr newBits]. rewrite store_insert_fresh.
      eexists _, [_]. split; [reflexivity |].
      cbn [repr_of].
      set (res := alter _ _ _). unfold newBits.
      replace (lastIdx + 1) with (Z.of_nat (length res))
        by (unfold res; rewrite length_alter; lia).
      by rewrite slice_words_fresh.
    + unfold bind, ret.
      eexists _, [_]. split; [reflexivity |].
      cbn [repr_of]. unfold newBits.
      replace (lastIdx + 1) with (Z.of_nat (length (take k ws))) by lia.
      by rewrite slice_words_fresh.
Qed.

End RemoveRuns.
Section SetRuns.

Implicit Types (h : store) (s t : BitSet) (r : repr).

Lemma repr_of_ext h ext s r :
  repr_of h s = Some r -> repr_of (h ++ ext) s = Some r.
Proof.
  destruct s as [w | b]; cbn [repr_of]; [done |].
  destruct (slice_words h b) as [ws |] eqn:Hs; [| discriminate].
  by rewrite (slice_words_ext _ ext _ _ Hs).
Qed.

Lemma Has_run h s r i :
  repr_of h s = Some r -> 0 <= i -> Has s i h = Some (repr_has r i, h).
Proof.
  destruct s as [w | b]; cbn [repr_of Has].
  - intros [= <-] _. reflexivity.
  - destruct (slice_words h b) as [ws |] eqn:Hs; [| discriminate].
    intros [= <-] Hi. by apply largeBitSet_Has_run.
Qed.

Lemma Add_run h s r i :
  repr_of h s = Some r -> 0 <= i ->
  exists t ext,
    Add s i h = Some (t, h ++ ext)
    /\ repr_of (h ++ ext) t = Some (repr_add r i).
Proof.
  destruct s as [w | b]; cbn [repr_of Add].
  - intros [= <-] Hi. cbn [repr_add].
    destruct (Z.ltb_spec i 64) as [Hlt | Hge].
    + exists (bitSet64 (Z.lor w (shl1 i))), []. rewrite app_nil_r.
      unfold bitSet64_Add. destruct (Z.ltb_spec i 64); [done | lia].
    + eexists _, [_]. split; [by apply bitSet64_Add_run |].
      cbn [repr_of]. by rewrite slice_words_fresh.
  - destruct (slice_words h b) as [ws |] eqn:Hs; [| discriminate].
    intros [= <-] Hi. cbn [repr_add].
    eexists _, [_]. split; [by apply largeBitSet_Add_run |].
    cbn [repr_of]. by rewrite slice_words_fresh.
Qed.

Lemma Remove_run h s r i :
  repr_of h s = Some r -> 0 <= i ->
  exists t ext,
    Remove s i h = Some (t, h ++ ext)
    /\ repr_of (h ++ ext) t = Some (repr_remove r i).
Proof.
  destruct s as [w | b]; cbn [repr_of Remove].
  - intros [= <-] Hi. exists (bitSet64_Remove w i), []. rewrite app_nil_r.
    split; [reflexivity |]. unfold bitSet64_Remove. cbn [repr_remove].
    by destruct (i >=? 64).
  - destruct (slice_words h b) as [ws |] eqn:Hs; [| discriminate].
    intros [= <-] Hi. by apply largeBitSet_Remove_run.
Qed.

End SetRuns.

(** ** Facts about words *)

Section WordFacts.

Lemma shl1_pow2 n : 0 <= n < 64 -> shl1 n = 2 ^ n.
Proof.
  intros Hn. unfold shl1, wrap64, modulus.
  rewrite Z.shiftl_1_l. apply Z.mod_small.
  split; [apply Z.pow_nonneg; lia |].
  apply Z.pow_lt_mono_r; lia.
Qed.

Lemma mod64_range i : 0 <= i mod 64 < 64.
Proof. apply Z.mod_pos_bound. lia. Qed.

Lemma pow2_testbit n m : 0 <= n -> Z.testbit (2 ^ n) m = (n =? m).
Proof. intros Hn. by apply Z.pow2_bits_eqb. Qed.

Lemma pow2_nonzero n : 0 <= n -> 2 ^ n <> 0.
Proof. intros Hn. apply Z.pow_nonzero; lia. Qed.

Lemma land_pow2 w n :
  0 <= n -> Z.land w (2 ^ n) = if Z.testbit w n then 2 ^ n else 0.
Proof.
  intros Hn. apply Z.bits_inj'. intros m Hm.
  rewrite Z.land_spec, pow2_testbit by done.
  destruct (Z.eqb_spec n m) as [-> |].
  - destruct (Z.testbit w m); cbn.
    + rewrite pow2_testbit by done. by rewrite Z.eqb_refl.
    + by rewrite Z.bits_0.
  - rewrite andb_false_r. destruct (Z.testbit w n).
    + rewrite pow2_testbit by done. symmetry. by apply Z.eqb_neq.
    + by rewrite Z.bits_0.
Qed.

(** The membership test of the code reads one bit. *)
Lemma has_bit w n :
  0 <= n -> negb (Z.land w (2 ^ n) =? 0) = Z.testbit w n.
Proof.
  intros Hn. rewrite land_pow2 by done.
  destruct (Z.testbit w n); cbn.
  - pose proof (pow2_nonzero n Hn). by destruct (Z.eqb_spec (2 ^ n) 0).
  - reflexivity.
Qed.

Lemma ldiff_lor_absent w n :
  0 <= n -> Z.testbit w n = false -> Z.ldiff (Z.lor w (2 ^ n)) (2 ^ n) = w.
Proof.
  intros Hn Hw. apply Z.bits_inj'. intros m Hm.
  rewrite Z.ldiff_spec, Z.lor_spec, pow2_testbit by done.
  destruct (Z.eqb_spec n m) as [<- |]; cbn.
  - by rewrite Hw.
  - by rewrite orb_false_r, andb_true_r.
Qed.

Lemma lor_pow2_nonzero w n : 0 <= n -> Z.lor w (2 ^ n) <> 0.
Proof.
  intros Hn [_ H]%Z.lor_eq_0_iff. by apply (pow2_nonzero n).
Qed.

(** Clearing a bit empties a word only if that bit was all it had. *)
Lemma ldiff_pow2_zero w n :
  0 <= n -> Z.ldiff w (2 ^ n) = 0 -> w = 0 \/ w = 2 ^ n.
Proof.
  intros Hn H.
  assert (w = Z.land w (2 ^ n)) as Hw.
  { apply Z.bits_inj'. intros m Hm.
    assert (Z.testbit (Z.ldiff w (2 ^ n)) m = false) as Hb
      by (rewrite H; apply Z.bits_0).
    rewrite Z.ldiff_spec in Hb. rewrite Z.land_spec.
    destruct (Z.testbit w m), (Z.testbit (2 ^ n) m); done. }
  rewrite land_pow2 in Hw by done.
  destruct (Z.testbit w n); auto.
Qed.

Lemma lor_pow2_other w n :
  0 <= n -> w <> 0 -> Z.testbit w n = false -> Z.lor w (2 ^ n) <> 2 ^ n.
Proof.
  intros Hn Hw Hb Heq. apply Hw.
  rewrite <- (ldiff_lor_absent w n Hn Hb), Heq.
  apply Z.ldiff_diag.
Qed.

Lemma uint64_testbit_high w m : is_uint64 w -> 64 <= m -> Z.testbit w m = false.
Proof.
  unfold is_uint64, modulus. intros Hw Hm.
  destruct (Z.eq_dec w 0) as [-> |]; [apply Z.bits_0 |].
  apply Z.bits_above_log2; [lia |].
  assert (Z.log2 w < 64) by (apply Z.log2_lt_pow2; lia). lia.
Qed.

Lemma uint64_of_bits x :
  0 <= x -> (forall m, 64 <= m -> Z.testbit x m = false) -> is_uint64 x.
Proof.
  intros Hx Hbits. split; [done |]. unfold modulus.
  destruct (Z.lt_ge_cases x (2 ^ 64)) as [| Hge]; [done |].
  assert (0 < x) as Hpos by lia.
  pose proof (Z.bit_log2 x Hpos) as Hb.
  rewrite Hbits in Hb; [discriminate |].
  by apply Z.log2_le_pow2.
Qed.

Lemma lor_uint64 a b : is_uint64 a -> is_uint64 b -> is_uint64 (Z.lor a b).
Proof.
  intros Ha Hb. apply uint64_of_bits.
  - apply Z.lor_nonneg. unfold is_uint64 in *. lia.
  - intros m Hm. by rewrite Z.lor_spec, !uint64_testbit_high.
Qed.

Lemma ldiff_uint64 a b : is_uint64 a -> is_uint64 (Z.ldiff a b).
Proof.
  intros Ha. apply uint64_of_bits.
  - apply Z.ldiff_nonneg. unfold is_uint64 in *. lia.
  - intros m Hm. by rewrite Z.ldiff_spec, uint64_testbit_high.
Qed.

Lemma shl1_uint64 n : is_uint64 (shl1 n).
Proof. unfold shl1, wrap64, is_uint64, modulus. apply Z.mod_pos_bound. lia. Qed.

Lemma uint64_ext a b :
  is_uint64 a -> is_uint64 b ->
  (forall j, 0 <= j < 64 -> Z.testbit a j = Z.testbit b j) -> a = b.
Proof.
  intros Ha Hb H. apply Z.bits_inj'. intros m Hm.
  destruct (Z.lt_ge_cases m 64); [apply H; lia |].
  by rewrite !uint64_testbit_high.
Qed.

Lemma uint64_nonzero_bit w :
  is_uint64 w -> w <> 0 -> exists j, 0 <= j < 64 /\ Z.testbit w j = true.
Proof.
  unfold is_uint64, modulus. intros Hw Hnz. exists (Z.log2 w).
  assert (0 < w) by lia. split.
  - split; [apply Z.log2_nonneg | apply Z.log2_lt_pow2; lia].
  - by apply Z.bit_log2.
Qed.

End WordFacts.

(** ** The scan of Remove and minimal heap forms *)

Section Scan.

Implicit Types (ws : list Z) (idx bit : Z).

Lemma skipped_true idx bit j w :
  skipped idx bit j w = true <-> w = 0 \/ (j = idx /\ w = bit).
Proof.
  unfold skipped.
  rewrite orb_true_iff, andb_true_iff, !Z.eqb_eq. tauto.
Qed.

Lemma last_kept_above ws idx bit n (j : nat) :
  last_kept ws idx bit n < Z.of_nat j < Z.of_nat n ->
  skipped idx bit (Z.of_nat j) (ws !!! j) = true.
Proof.
  induction n as [| m IH]; cbn [last_kept]; [lia |].
  destruct (skipped idx bit (Z.of_nat m) (ws !!! m)) eqn:Hm; [| lia].
  intros Hj. destruct (decide (j = m)) as [-> |]; [done |].
  apply IH. lia.
Qed.

Lemma last_kept_at ws idx bit n :
  0 <= last_kept ws idx bit n ->
  skipped idx bit (last_kept ws idx bit n)
          (ws !!! Z.to_nat (last_kept ws idx bit n)) = false.
Proof.
  induction n as [| m IH]; cbn [last_kept]; [lia |].
  destruct (skipped idx bit (Z.of_nat m) (ws !!! m)) eqn:Hm; [done |].
  intros _. by rewrite Nat2Z.id.
Qed.

Lemma last_kept_stop ws idx bit n (m : nat) :
  (m < n)%nat ->
  skipped idx bit (Z.of_nat m) (ws !!! m) = false ->
  (forall j : nat, (m < j < n)%nat ->
                   skipped idx bit (Z.of_nat j) (ws !!! j) = true) ->
  last_kept ws idx bit n = Z.of_nat m.
Proof.
  induction n as [| k IH]; [lia |]. intros Hm Hstop Hskip.
  cbn [last_kept]. destruct (decide (m = k)) as [-> |].
  - by rewrite Hstop.
  - rewrite Hskip by lia. apply IH; [lia | done |].
    intros j Hj. apply Hskip. lia.
Qed.

Lemma last_kept_none ws idx bit n :
  (forall j : nat, (j < n)%nat ->
                   skipped idx bit (Z.of_nat j) (ws !!! j) = true) ->
  last_kept ws idx bit n = -1.
Proof.
  induction n as [| k IH]; [done |]. intros Hskip.
  cbn [last_kept]. rewrite Hskip by lia. apply IH.
  intros j Hj. apply Hskip. lia.
Qed.

(** The loop computes the [lastIdx] of the specification. *)
Lemma last_kept_spec ws idx bit :
  spec_lastIdx ws idx bit (last_kept ws idx bit (length ws)).
Proof.
  split; [apply last_kept_bounds |]. split.
  - intros j Hj. apply skipped_true. by eapply last_kept_above.
  - intros Hl Hskip.
    pose proof (last_kept_bounds ws idx bit (length ws)).
    pose proof (last_kept_at ws idx bit (length ws) Hl) as Hat.
    enough (skipped idx bit (last_kept ws idx bit (length ws))
              (ws !!! Z.to_nat (last_kept ws idx bit (length ws))) = true)
      by congruence.
    apply skipped_true. destruct Hskip as [? | [? ?]]; [by left | right].
    split; [lia | done].
Qed.

Lemma spec_lastIdx_unique ws idx bit l1 l2 :
  spec_lastIdx ws idx bit l1 -> spec_lastIdx ws idx bit l2 -> l1 = l2.
Proof.
  intros (Hb1 & Ha1 & Hs1) (Hb2 & Ha2 & Hs2).
  destruct (Z.lt_trichotomy l1 l2) as [Hlt | [? | Hlt]]; [| done |].
  - exfalso. apply Hs2; [lia |]. apply Ha1. lia.
  - exfalso. apply Hs1; [lia |]. apply Ha2. lia.
Qed.

End Scan.

Section Minimal.

Implicit Types (ws : list Z) (r : repr).

(** [Remove] of an index whose slot is in range gives a minimal result,
    whatever the argument. *)
Lemma remove_in_range_minimal ws i :
  0 <= i -> i / 64 < Z.of_nat (length ws) ->
  minimal (repr_remove (Heap ws) i).
Proof.
  intros Hi Hin. pose proof (idx_nonneg i Hi) as Hidx.
  pose proof (mod64_range i) as Hmod.
  cbn [repr_remove].
  destruct (Z.geb_spec (i / 64) (Z.of_nat (length ws))); [lia |].
  set (bit := shl1 (i mod 64)).
  set (l := last_kept ws (i / 64) bit (length ws)).
  pose proof (last_kept_bounds ws (i / 64) bit (length ws)) as Hb.
  fold l in Hb.
  destruct (Z.leb_spec l 0) as [| Hpos]; [done |].
  pose proof (last_kept_at ws (i / 64) bit (length ws) ltac:(fold l; lia))
    as Hat. fold l in Hat.
  apply not_true_iff_false in Hat. rewrite skipped_true in Hat.
  set (k := Z.to_nat (l + 1)).
  assert (length (take k ws) = k) as Hk by (rewrite length_take; lia).
  assert ((k - 1)%nat = Z.to_nat l) as Hlast by lia.
  assert (take k ws !!! Z.to_nat l = ws !!! Z.to_nat l) as Htake
    by (apply lookup_total_take_lt; lia).
  cbn [minimal]. unfold heap_minimal.
  destruct (Z.ltb_spec (i / 64) (l + 1)).
  - rewrite length_alter, Hk, Hlast. split; [lia |].
    destruct (decide (Z.to_nat (i / 64) = Z.to_nat l)) as [Heq | Hne].
    + rewrite Heq, list_lookup_total_alter_eq by lia. rewrite Htake.
      unfold bit in *. rewrite shl1_pow2 in * by done.
      intros [Hz | Hbit]%ldiff_pow2_zero; [tauto | | lia].
      apply Hat. right. split; [lia | done].
    + rewrite list_lookup_total_alter_ne by done. rewrite Htake. tauto.
  - rewrite Hk, Hlast, Htake. split; [lia | tauto].
Qed.

End Minimal.

Section AddFacts.

Implicit Types (ws : list Z) (r : repr).

Lemma words_add_target_old ws i :
  (Z.to_nat (i / 64) < length ws)%nat ->
  words_add ws i !!! Z.to_nat (i / 64)
  = Z.lor (ws !!! Z.to_nat (i / 64)) (shl1 (i mod 64)).
Proof.
  intros Hin. unfold words_add.
  rewrite list_lookup_total_alter_eq
    by (rewrite length_app, length_replicate; lia).
  by rewrite lookup_total_app_l.
Qed.

Lemma words_add_target_new ws i :
  (length ws <= Z.to_nat (i / 64))%nat ->
  words_add ws i !!! Z.to_nat (i / 64) = shl1 (i mod 64).
Proof.
  intros Hout. unfold words_add.
  rewrite list_lookup_total_alter_eq
    by (rewrite length_app, length_replicate; lia).
  rewrite lookup_total_app_r by done.
  rewrite lookup_total_replicate_2 by lia. apply Z.lor_0_l.
Qed.

Lemma words_add_other_old ws i (j : nat) :
  j <> Z.to_nat (i / 64) -> (j < length ws)%nat ->
  words_add ws i !!! j = ws !!! j.
Proof.
  intros Hne Hj. unfold words_add.
  rewrite list_lookup_total_alter_ne by done.
  by rewrite lookup_total_app_l.
Qed.

Lemma words_add_other_new ws i (j : nat) :
  (length ws <= j < Z.to_nat (i / 64))%nat -> words_add ws i !!! j = 0.
Proof.
  intros Hj. unfold words_add.
  rewrite list_lookup_total_alter_ne by lia.
  rewrite lookup_total_app_r by lia.
  apply lookup_total_replicate_2. lia.
Qed.

Lemma words_add_take ws i : take (length ws) (words_add ws i) = alter
  (fun w => Z.lor w (shl1 (i mod 64))) (Z.to_nat (i / 64)) ws.
Proof.
  unfold words_add.
  destruct (decide (Z.to_nat (i / 64) < length ws)%nat) as [Hin | Hout].
  - rewrite alter_app_l by done.
    rewrite take_app_length'; [done | by rewrite length_alter].
  - rewrite take_alter_ge, take_app_length by lia.
    symmetry. apply list_eq. intros j. rewrite list_lookup_alter.
    destruct (decide (Z.to_nat (i / 64) = j)) as [<- |]; [| done].
    by rewrite lookup_ge_None_2 by lia.
Qed.

Lemma shl1_mod_nonzero i : shl1 (i mod 64) <> 0.
Proof.
  pose proof (mod64_range i).
  rewrite shl1_pow2 by done. apply pow2_nonzero. lia.
Qed.

(** [Add] keeps heap forms minimal, and promotes to a minimal heap form. *)
Lemma add_minimal r i : 0 <= i -> minimal r -> minimal (repr_add r i).
Proof.
  intros Hi Hmin. pose proof (idx_nonneg i Hi) as Hidx.
  assert (forall ws, (1 <= length ws)%nat ->
            (64 <= i \/ (2 <= length ws)%nat) ->
            ((Z.to_nat (i / 64) < length ws - 1)%nat ->
             ws !!! (length ws - 1)%nat <> 0) ->
            heap_minimal (words_add ws i)) as Hheap.
  { intros ws Hlen Hbig Hlast.
    assert (1 <= i / 64 \/ (2 <= length ws)%nat) as Hbig'.
    { destruct Hbig as [Hge |]; [left | by right].
      apply Z.div_le_lower_bound; lia. }
    split; [rewrite length_words_add; lia |].
    rewrite length_words_add.
    destruct (decide (Z.to_nat (i / 64) < length ws - 1)%nat) as [Hlt | Hge].
    - replace (Nat.max (length ws) (Z.to_nat (i / 64) + 1) - 1)%nat
        with (length ws - 1)%nat by lia.
      rewrite words_add_other_old by lia. by apply Hlast.
    - replace (Nat.max (length ws) (Z.to_nat (i / 64) + 1) - 1)%nat
        with (Z.to_nat (i / 64)) by lia.
      destruct (decide (Z.to_nat (i / 64) < length ws)%nat).
      + rewrite words_add_target_old by done.
        pose proof (mod64_range i).
        rewrite shl1_pow2 by done. apply lor_pow2_nonzero. lia.
      + rewrite words_add_target_new by lia. apply shl1_mod_nonzero. }
  destruct r as [b | ws]; cbn [repr_add minimal] in *.
  - destruct (Z.ltb_spec i 64); [done |]. cbn [minimal].
    apply Hheap; cbn [length]; [lia | by left | lia].
  - destruct Hmin as [Hlen Hlast].
    apply Hheap; [lia | by right | done].
Qed.

Lemma remove_minimal r i : 0 <= i -> minimal r -> minimal (repr_remove r i).
Proof.
  intros Hi Hmin. destruct r as [b | ws]; [done |].
  destruct (Z.lt_ge_cases (i / 64) (Z.of_nat (length ws))) as [Hin | Hout].
  - by apply remove_in_range_minimal.
  - cbn [repr_remove].
    destruct (Z.geb_spec (i / 64) (Z.of_nat (length ws))); [done | lia].
Qed.

End AddFacts.

Section RoundTrip.

Implicit Types (ws : list Z) (r : repr).

Lemma last_kept_le ws idx bit n (m : nat) :
  (forall j : nat, (m < j < n)%nat ->
                   skipped idx bit (Z.of_nat j) (ws !!! j) = true) ->
  last_kept ws idx bit n <= Z.of_nat m.
Proof.
  intros Hskip. pose proof (last_kept_bounds ws idx bit n) as Hb.
  destruct (Z.le_gt_cases (last_kept ws idx bit n) (Z.of_nat m)) as [| Hgt];
    [done |].
  pose proof (last_kept_at ws idx bit n ltac:(lia)) as Hat.
  rewrite <- (Z2Nat.id (last_kept ws idx bit n)) in Hat at 1 by lia.
  rewrite Hskip in Hat by lia. discriminate.
Qed.

Lemma words_has_absent ws i :
  0 <= i -> (Z.to_nat (i / 64) < length ws)%nat ->
  words_has ws i = false ->
  Z.testbit (ws !!! Z.to_nat (i / 64)) (i mod 64) = false.
Proof.
  intros Hi Hin. pose proof (mod64_range i).
  unfold words_has. rewrite list_lookup_lookup_total_lt by done.
  rewrite shl1_pow2 by done. by rewrite has_bit by lia.
Qed.

Lemma roundtrip_inline b i :
  0 <= i -> bitSet64_Has b i = false ->
  repr_remove (repr_add (Inline b) i) i = Inline b.
Proof.
  intros Hi Hhas. pose proof (idx_nonneg i Hi) as Hidx.
  cbn [repr_add]. destruct (Z.ltb_spec i 64) as [Hlt | Hge].
  - cbn [repr_remove]. destruct (Z.geb_spec i 64); [lia |].
    unfold bitSet64_Has in Hhas. destruct (Z.geb_spec i 64); [lia |].
    rewrite shl1_pow2 in * by lia. rewrite has_bit in Hhas by lia.
    by rewrite ldiff_lor_absent.
  - assert (1 <= i / 64) as Hone by (apply Z.div_le_lower_bound; lia).
    set (ws' := words_add [b] i).
    assert (length ws' = (Z.to_nat (i / 64) + 1)%nat) as Hlen
      by (unfold ws'; rewrite length_words_add; cbn [length]; lia).
    cbn [repr_remove]. fold ws'. rewrite Hlen.
    destruct (Z.geb_spec (i / 64) (Z.of_nat (Z.to_nat (i / 64) + 1)));
      [lia |].
    set (l := last_kept ws' (i / 64) (shl1 (i mod 64))
                        (Z.to_nat (i / 64) + 1)).
    assert (l <= 0) as Hl.
    { apply (last_kept_le _ _ _ _ 0%nat). intros j Hj.
      apply skipped_true.
      destruct (decide (j = Z.to_nat (i / 64))) as [-> | Hne].
      - right. split; [lia |]. unfold ws'.
        apply words_add_target_new. cbn [length]. lia.
      - left. unfold ws'. apply words_add_other_new. cbn [length]. lia. }
    destruct (Z.leb_spec l 0); [| lia].
    assert (ws' !!! 0%nat = b) as ->
      by (unfold ws'; rewrite words_add_other_old; cbn [length];
          [done | lia | lia]).
    destruct (Z.eqb_spec (i / 64) 0); [lia |].
    by rewrite andb_false_r.
Qed.

Lemma roundtrip_heap ws i :
  0 <= i -> heap_minimal ws -> words_has ws i = false ->
  repr_remove (repr_add (Heap ws) i) i = Heap ws.
Proof.
  intros Hi [Hlen Hlast] Hhas. pose proof (idx_nonneg i Hi) as Hidx.
  pose proof (mod64_range i) as Hmod.
  cbn [repr_add repr_remove].
  set (ws' := words_add ws i). set (bit := shl1 (i mod 64)).
  assert (length ws' = Nat.max (length ws) (Z.to_nat (i / 64) + 1)) as Hlen'
    by apply length_words_add.
  destruct (Z.geb_spec (i / 64) (Z.of_nat (length ws'))); [lia |].
  assert (last_kept ws' (i / 64) bit (length ws')
          = Z.of_nat (length ws - 1)) as ->.
  { apply last_kept_stop; [lia | |].
    - apply not_true_iff_false. rewrite skipped_true.
      destruct (decide (length ws - 1 = Z.to_nat (i / 64))%nat) as [Heq | Hne].
      + rewrite Heq. unfold ws'. rewrite words_add_target_old by lia.
        pose proof (words_has_absent ws i Hi ltac:(lia) Hhas) as Habs.
        rewrite <- Heq in *. unfold bit. rewrite shl1_pow2 by done.
        intros [Hz | [_ Hb]].
        * by apply lor_pow2_nonzero in Hz; [| lia].
        * by apply lor_pow2_other in Hb; [| lia | |].
      + unfold ws'. rewrite words_add_other_old by lia.
        intros [? | [? _]]; [done | lia].
    - intros j Hj. apply skipped_true.
      destruct (decide (j = Z.to_nat (i / 64))) as [-> | Hne].
      + right. split; [lia |]. unfold ws', bit.
        apply words_add_target_new. lia.
      + left. unfold ws'. apply words_add_other_new. lia. }
  destruct (Z.leb_spec (Z.of_nat (length ws - 1)) 0); [lia |].
  replace (Z.to_nat (Z.of_nat (length ws - 1) + 1)) with (length ws) by lia.
  unfold ws'. rewrite words_add_take. f_equal.
  destruct (Z.ltb_spec (i / 64) (Z.of_nat (length ws - 1) + 1)) as [Hin | Hout].
  - pose proof (words_has_absent ws i Hi ltac:(lia) Hhas) as Habs.
    rewrite list_alter_alter_eq. apply list_eq. intros j.
    rewrite list_lookup_alter.
    destruct (decide (Z.to_nat (i / 64) = j)) as [<- |]; [| done].
    rewrite list_lookup_lookup_total_lt by lia. cbn. f_equal.
    unfold bit. rewrite shl1_pow2 by done.
    by apply ldiff_lor_absent; [lia |].
  - apply list_eq. intros j. rewrite list_lookup_alter.
    destruct (decide (Z.to_nat (i / 64) = j)) as [<- |]; [| done].
    by rewrite lookup_ge_None_2 by lia.
Qed.

(** Adding an absent index and removing it again gives back the same
    representation, for an inline value and for a minimal heap value. *)
Lemma add_remove_roundtrip r i :
  0 <= i -> minimal r -> repr_has r i = false ->
  repr_remove (repr_add r i) i = r.
Proof.
  intros Hi Hmin Hhas. destruct r as [b | ws].
  - by apply roundtrip_inline.
  - by apply roundtrip_heap.
Qed.

End RoundTrip.

Section Membership.

Implicit Types (ws : list Z) (r : repr).

Lemma words_has_testbit ws k :
  0 <= k -> (Z.to_nat (k / 64) < length ws)%nat ->
  words_has ws k = Z.testbit (ws !!! Z.to_nat (k / 64)) (k mod 64).
Proof.
  intros Hk Hin. pose proof (mod64_range k).
  unfold words_has. rewrite list_lookup_lookup_total_lt by done.
  rewrite shl1_pow2 by done. apply has_bit. lia.
Qed.

Lemma words_has_out ws k :
  (length ws <= Z.to_nat (k / 64))%nat -> words_has ws k = false.
Proof. intros Hout. unfold words_has. by rewrite lookup_ge_None_2. Qed.

Lemma inline_has_words b k : 0 <= k -> bitSet64_Has b k = words_has [b] k.
Proof.
  intros Hk. unfold bitSet64_Has.
  destruct (Z.geb_spec k 64) as [Hge | Hlt].
  - symmetry. apply words_has_out. cbn [length].
    assert (1 <= k / 64) by (apply Z.div_le_lower_bound; lia). lia.
  - unfold words_has.
    rewrite Z.div_small, Z.mod_small by lia. reflexivity.
Qed.

Lemma same_slot_eqb i k :
  0 <= i -> 0 <= k -> k / 64 = i / 64 ->
  (i mod 64 =? k mod 64) = (k =? i).
Proof.
  intros Hi Hk Hslot.
  pose proof (Z.div_mod i 64 ltac:(lia)).
  pose proof (Z.div_mod k 64 ltac:(lia)).
  destruct (Z.eqb_spec (i mod 64) (k mod 64)), (Z.eqb_spec k i);
    try done; lia.
Qed.

Lemma words_has_add ws i k :
  0 <= i -> 0 <= k ->
  words_has (words_add ws i) k = (k =? i) || words_has ws k.
Proof.
  intros Hi Hk. pose proof (idx_nonneg i Hi). pose proof (idx_nonneg k Hk).
  pose proof (mod64_range i). pose proof (mod64_range k).
  pose proof (length_words_add ws i) as Hlen.
  destruct (decide (k / 64 = i / 64)) as [Hslot | Hslot].
  - rewrite <- (same_slot_eqb i k) by done.
    rewrite words_has_testbit by (rewrite ?Hslot; lia). rewrite Hslot.
    destruct (decide (Z.to_nat (i / 64) < length ws)%nat).
    + rewrite words_add_target_old by done.
      rewrite words_has_testbit, Hslot by (rewrite ?Hslot; lia).
      rewrite shl1_pow2, Z.lor_spec, pow2_testbit by lia.
      apply orb_comm.
    + rewrite words_add_target_new by lia.
      rewrite words_has_out by (rewrite ?Hslot; lia).
      rewrite shl1_pow2, pow2_testbit by lia. by rewrite orb_false_r.
  - destruct (Z.eqb_spec k i) as [-> |]; [done |]. cbn [orb].
    destruct (decide (Z.to_nat (k / 64) < length ws)%nat).
    + rewrite !words_has_testbit by lia.
      rewrite words_add_other_old by lia. reflexivity.
    + rewrite (words_has_out ws) by lia.
      destruct (decide (Z.to_nat (k / 64) < Z.to_nat (i / 64))%nat).
      * rewrite words_has_testbit by lia.
        rewrite words_add_other_new by lia. apply Z.bits_0.
      * apply words_has_out. lia.
Qed.

Lemma repr_has_add r i k :
  0 <= i -> 0 <= k ->
  repr_has (repr_add r i) k = (k =? i) || repr_has r k.
Proof.
  intros Hi Hk. destruct r as [b | ws]; cbn [repr_add repr_has].
  - destruct (Z.ltb_spec i 64) as [Hlt | Hge]; cbn [repr_has].
    + unfold bitSet64_Has. destruct (Z.geb_spec k 64).
      * destruct (Z.eqb_spec k i); [lia | done].
      * rewrite !shl1_pow2, !has_bit by lia.
        rewrite Z.lor_spec, pow2_testbit by lia.
        rewrite (Z.eqb_sym i k). apply orb_comm.
    + rewrite words_has_add by done. by rewrite inline_has_words.
  - by apply words_has_add.
Qed.

Lemma repr_has_adds r (l : list Z) k :
  Forall (fun i => 0 <= i) l -> 0 <= k ->
  repr_has (foldl repr_add r l) k = existsb (Z.eqb k) l || repr_has r k.
Proof.
  intros Hl Hk. revert r. induction Hl as [| i l Hi _ IH]; intros r; [done |].
  cbn [foldl existsb]. rewrite IH, repr_has_add by done.
  by rewrite orb_assoc, (orb_comm (existsb _ _)).
Qed.

Lemma adds_minimal r (l : list Z) :
  Forall (fun i => 0 <= i) l -> minimal r -> minimal (foldl repr_add r l).
Proof.
  intros Hl. revert r. induction Hl as [| i l Hi _ IH]; intros r Hr; [done |].
  cbn [foldl]. apply IH. by apply add_minimal.
Qed.

End Membership.

Section WellFormed.

Implicit Types (ws : list Z) (r : repr).

Lemma uint32_slot i : is_uint32 i -> 0 <= i / 64 < 2 ^ 26.
Proof.
  intros [Hi Hlt]. split; [by apply idx_nonneg |].
  apply Z.div_lt_upper_bound; [lia |].
  change (64 * 2 ^ 26) with (2 ^ 32). done.
Qed.

Lemma words_add_well_formed ws i :
  is_uint32 i -> well_formed (Heap ws) -> well_formed (Heap (words_add ws i)).
Proof.
  intros Hi [Hws Hlen]. pose proof (uint32_slot i Hi). split.
  - unfold words_add. apply Forall_alter.
    + apply Forall_app. split; [done |].
      apply Forall_replicate. split; [done | by compute].
    + intros w _ Hw. apply lor_uint64; [done | apply shl1_uint64].
  - rewrite length_words_add. lia.
Qed.

Lemma add_well_formed r i :
  is_uint32 i -> well_formed r -> well_formed (repr_add r i).
Proof.
  intros Hi Hr. destruct r as [b | ws]; cbn [repr_add].
  - destruct (Z.ltb_spec i 64).
    + apply lor_uint64; [done | apply shl1_uint64].
    + apply words_add_well_formed; [done |]. split.
      * by apply Forall_singleton.
      * cbn [length]. lia.
  - by apply words_add_well_formed.
Qed.

Lemma remove_well_formed r i :
  0 <= i -> well_formed r -> well_formed (repr_remove r i).
Proof.
  intros Hi Hr. pose proof (idx_nonneg i Hi).
  destruct r as [b | ws]; cbn [repr_remove].
  - destruct (i >=? 64); [done | by apply ldiff_uint64].
  - destruct Hr as [Hws Hlen].
    destruct (Z.geb_spec (i / 64) (Z.of_nat (length ws))); [done |].
    set (l := last_kept ws (i / 64) (shl1 (i mod 64)) (length ws)).
    destruct (Z.leb_spec l 0).
    + assert (is_uint64 (ws !!! 0%nat)) as Hfirst
        by (apply Forall_lookup_total; [done | lia]).
      cbn [well_formed]. destruct (_ && _); [by apply ldiff_uint64 | done].
    + assert (Forall is_uint64 (take (Z.to_nat (l + 1)) ws)) as Htake
        by (by apply Forall_take).
      assert (Z.of_nat (length (take (Z.to_nat (l + 1)) ws)) <= 2 ^ 26)
        as Hle by (rewrite length_take; lia).
      destruct (i / 64 <? l + 1); [| done]. split.
      * apply Forall_alter; [done |]. intros w _ Hw. by apply ldiff_uint64.
      * by rewrite length_alter.
Qed.

(** Among well-formed minimal representations, membership determines the
    representation. *)
Lemma heap_member ws :
  well_formed (Heap ws) -> heap_minimal ws ->
  exists k, is_uint32 k /\ k / 64 = Z.of_nat (length ws - 1)
            /\ words_has ws k = true.
Proof.
  intros [Hws Hlen] [Hlen2 Hlast].
  assert (is_uint64 (ws !!! (length ws - 1)%nat)) as Hw
    by (apply Forall_lookup_total; [done | lia]).
  destruct (uint64_nonzero_bit _ Hw Hlast) as (j & Hj & Hbit).
  set (n := Z.of_nat (length ws - 1)).
  assert ((n * 64 + j) / 64 = n) as Hdiv
    by (rewrite Z.div_add_l, Z.div_small by lia; lia).
  assert ((n * 64 + j) mod 64 = j) as Hmod
    by (rewrite Z.add_comm, Z.mod_add, Z.mod_small by lia; lia).
  exists (n * 64 + j). split; [| split; [done |]].
  - unfold is_uint32. change (2 ^ 32) with (2 ^ 26 * 64). unfold n. nia.
  - rewrite words_has_testbit by (rewrite ?Hdiv; unfold n; lia).
    rewrite Hdiv, Hmod. unfold n. by rewrite Nat2Z.id.
Qed.

Lemma has_ext r1 r2 :
  well_formed r1 -> well_formed r2 -> minimal r1 -> minimal r2 ->
  (forall k, is_uint32 k -> repr_has r1 k = repr_has r2 k) -> r1 = r2.
Proof.
  assert (forall b ws, well_formed (Heap ws) -> heap_minimal ws ->
            (forall k, is_uint32 k ->
                       bitSet64_Has b k = words_has ws k) -> False) as Hmix.
  { intros b ws Hwf Hmin Hsame.
    destruct (heap_member ws Hwf Hmin) as (k & Hk & Hslot & Hhas).
    rewrite <- Hsame in Hhas by done. unfold bitSet64_Has in Hhas.
    destruct Hmin as [Hlen _].
    destruct (Z.geb_spec k 64) as [| Hlt]; [done |].
    rewrite Z.div_small in Hslot by (unfold is_uint32 in Hk; lia). lia. }
  assert (forall ws1 ws2, well_formed (Heap ws1) -> heap_minimal ws2 ->
            well_formed (Heap ws2) ->
            (forall k, is_uint32 k -> words_has ws1 k = words_has ws2 k) ->
            (length ws2 <= length ws1)%nat) as Hlen.
  { intros ws1 ws2 Hwf1 Hmin2 Hwf2 Hsame.
    destruct (heap_member ws2 Hwf2 Hmin2) as (k & Hk & Hslot & Hhas).
    destruct (decide (length ws2 <= length ws1)%nat) as [| Hgt]; [done |].
    rewrite <- Hsame, words_has_out in Hhas by (try done; lia). done. }
  intros Hwf1 Hwf2 Hmin1 Hmin2 Hsame.
  destruct r1 as [a | ws1], r2 as [b | ws2]; cbn [repr_has] in Hsame.
  - f_equal. apply uint64_ext; [done | done |]. intros j Hj.
    specialize (Hsame j ltac:(unfold is_uint32; lia)).
    unfold bitSet64_Has in Hsame. destruct (Z.geb_spec j 64); [lia |].
    by rewrite !shl1_pow2, !has_bit in Hsame by lia.
  - exfalso. by eapply Hmix.
  - exfalso. eapply (Hmix b ws1); [done | done |].
    intros k Hk. symmetry. by apply Hsame.
  - f_equal.
    assert (length ws1 = length ws2) as Heq.
    { apply Nat.le_antisymm; [eapply Hlen | eapply Hlen]; try done.
      intros k Hk. symmetry. by apply Hsame. }
    apply list_eq_same_length with (length ws1); [done | by rewrite Heq |].
    intros j w1 w2 Hj Hw1 Hw2.
    destruct Hwf1 as [Hu1 Hl1], Hwf2 as [Hu2 Hl2].
    apply uint64_ext.
    + eapply Forall_lookup_1; [exact Hu1 | exact Hw1].
    + eapply Forall_lookup_1; [exact Hu2 | exact Hw2].
    + intros c Hc.
      assert ((Z.of_nat j * 64 + c) / 64 = Z.of_nat j) as Hdiv
        by (rewrite Z.div_add_l, Z.div_small by lia; lia).
      assert ((Z.of_nat j * 64 + c) mod 64 = c) as Hmod
        by (rewrite Z.add_comm, Z.mod_add, Z.mod_small by lia; lia).
      specialize (Hsame (Z.of_nat j * 64 + c)).
      rewrite !words_has_testbit in Hsame
        by (rewrite ?Hdiv, ?Nat2Z.id; lia).
      rewrite Hdiv, Hmod, Nat2Z.id in Hsame.
      rewrite !list_lookup_total_alt, Hw1, Hw2 in Hsame. cbn in Hsame.
      apply Hsame. unfold is_uint32.
      change (2 ^ 32) with (2 ^ 26 * 64). nia.
Qed.

End WellFormed.

Section BuilderRuns.

Implicit Types (h : store) (b : slice) (ws : list Z) (r : repr).

Lemma words_add_in ws i :
  (Z.to_nat (i / 64) < length ws)%nat ->
  words_add ws i
  = alter (fun w => Z.lor w (shl1 (i mod 64))) (Z.to_nat (i / 64)) ws.
Proof.
  intros Hin. rewrite <- words_add_take.
  symmetry. apply take_ge. rewrite length_words_add. lia.
Qed.

Lemma bitSetBuilder_With_run h b ws i :
  slice_words h b = Some ws -> 0 <= i ->
  exists bld h',
    bitSetBuilder_With b i h = Some (bld, h')
    /\ repr_of h' (Build bld) = Some (Heap (words_add ws i)).
Proof.
  intros Hs Hi. pose proof (idx_nonneg i Hi) as Hidx.
  pose proof (slice_words_length _ _ _ Hs) as Hlen.
  destruct (slice_words_Some _ _ _ Hs) as (a & Ha & Hcap & Hws).
  unfold bitSetBuilder_With.
  destruct (Z.ltb_spec (i / 64) (len b)) as [Hin | Hout].
  - assert (Z.to_nat (i / 64) < length ws)%nat as Hj by lia.
    pose proof (slice_words_lookup _ _ _ _ _ Hs Ha Hj) as Hold.
    rewrite (bind_run _ _ _ _ _
               (or_assign_run b (i / 64) _ _ _ _ Ha Hold ltac:(lia))).
    eexists _, _. split; [reflexivity |].
    cbn [Build repr_of]. unfold slice_words.
    rewrite list_lookup_insert_eq by (by eapply lookup_lt_Some).
    rewrite length_alter.
    destruct (Z.leb_spec 0 (len b)); [| lia].
    destruct (Z.leb_spec (len b) (Z.of_nat (length a))); [| lia].
    cbn. do 2 f_equal.
    rewrite take_alter_lt by lia. rewrite <- Hws.
    symmetry. by apply words_add_in.
  - rewrite (bind_run _ _ _ _ _ (largeBitSet_Add_run _ _ _ _ Hs Hi)).
    cbn [assert_largeBitSet]. unfold bind, ret.
    eexists _, _. split; [reflexivity |].
    cbn [Build repr_of]. by rewrite slice_words_fresh.
Qed.

Lemma With_run h bld r i :
  repr_of h (Build bld) = Some r -> 0 <= i ->
  exists bld' h',
    With bld i h = Some (bld', h')
    /\ repr_of h' (Build bld') = Some (repr_add r i).
Proof.
  destruct bld as [w | b]; cbn [Build repr_of With].
  - intros [= <-] Hi. cbn [repr_add]. unfold bitSet64_With.
    destruct (Z.ltb_spec i 64) as [Hlt | Hge].
    + unfold bitSet64_Add. destruct (Z.ltb_spec i 64); [| lia].
      eexists _, _. split; reflexivity.
    + rewrite (bind_run _ _ _ _ _ (bitSet64_Add_run h w i Hge)).
      cbn [assert_largeBitSet]. unfold bind, ret.
      eexists _, _. split; [reflexivity |].
      cbn [Build repr_of]. by rewrite slice_words_fresh.
  - destruct (slice_words h b) as [ws |] eqn:Hs; [| discriminate].
    intros [= <-] Hi. by apply bitSetBuilder_With_run.
Qed.

Lemma WithMany_run (l : list Z) : forall h bld r,
  repr_of h (Build bld) = Some r -> Forall (fun i => 0 <= i) l ->
  exists bld' h',
    WithMany bld l h = Some (bld', h')
    /\ repr_of h' (Build bld') = Some (foldl repr_add r l).
Proof.
  induction l as [| i l IH]; intros h bld r Hr Hl.
  - exists bld, h. done.
  - apply Forall_cons in Hl as [Hi Hl].
    destruct (With_run h bld r i Hr Hi) as (bld1 & h1 & Hrun & Hr1).
    destruct (IH h1 bld1 _ Hr1 Hl) as (bld2 & h2 & Hrun2 & Hr2).
    exists bld2, h2. split; [| done].
    cbn [WithMany]. by rewrite (bind_run _ _ _ _ _ Hrun).
Qed.

Lemma AddMany_run (l : list Z) : forall h (s : BitSet) r,
  repr_of h s = Some r -> Forall (fun i => 0 <= i) l ->
  exists t ext,
    AddMany s l h = Some (t, h ++ ext)
    /\ repr_of (h ++ ext) t = Some (foldl repr_add r l).
Proof.
  induction l as [| i l IH]; intros h s r Hr Hl.
  - exists s, []. by rewrite app_nil_r.
  - apply Forall_cons in Hl as [Hi Hl].
    destruct (Add_run h s r i Hr Hi) as (t1 & ext1 & Hrun & Hr1).
    destruct (IH _ t1 _ Hr1 Hl) as (t2 & ext2 & Hrun2 & Hr2).
    exists t2, (ext1 ++ ext2). rewrite app_assoc. split; [| done].
    cbn [AddMany]. by rewrite (bind_run _ _ _ _ _ Hrun).
Qed.

End BuilderRuns.

(** ** The invariant of the values obtained through the interface *)

Section Invariant.

Implicit Types (h : store) (s t : BitSet) (r : repr).

Lemma uint32_nonneg i : is_uint32 i -> 0 <= i.
Proof. by intros [? _]. Qed.

Lemma Forall_uint32_nonneg (l : list Z) :
  Forall is_uint32 l -> Forall (fun i => 0 <= i) l.
Proof.
  intros Hl. eapply Forall_impl; [exact Hl |]. intros i. apply uint32_nonneg.
Qed.

Lemma adds_well_formed r (l : list Z) :
  Forall is_uint32 l -> well_formed r -> well_formed (foldl repr_add r l).
Proof.
  intros Hl. revert r. induction Hl as [| i l Hi _ IH]; intros r Hr; [done |].
  cbn [foldl]. apply IH. by apply add_well_formed.
Qed.

Lemma Add_inv h s r i t h' :
  repr_of h s = Some r -> 0 <= i -> Add s i h = Some (t, h') ->
  repr_of h' t = Some (repr_add r i) /\ exists ext, h' = h ++ ext.
Proof.
  intros Hr Hi Hrun.
  destruct (Add_run h s r i Hr Hi) as (t' & ext & Hrun' & Hr').
  rewrite Hrun in Hrun'. injection Hrun' as -> ->. eauto.
Qed.

Lemma Remove_inv h s r i t h' :
  repr_of h s = Some r -> 0 <= i -> Remove s i h = Some (t, h') ->
  repr_of h' t = Some (repr_remove r i) /\ exists ext, h' = h ++ ext.
Proof.
  intros Hr Hi Hrun.
  destruct (Remove_run h s r i Hr Hi) as (t' & ext & Hrun' & Hr').
  rewrite Hrun in Hrun'. injection Hrun' as -> ->. eauto.
Qed.

Lemma produced_invariant h s :
  produced h s ->
  exists r, repr_of h s = Some r /\ minimal r /\ well_formed r.
Proof.
  induction 1 as [h | h c l bld h' Hc Hl Hrun
                  | h s i t h' _ (r & Hr & Hmin & Hwf) Hi Hrun
                  | h s i t h' _ (r & Hr & Hmin & Hwf) Hi Hrun
                  | h ext s _ (r & Hr & Hmin & Hwf)].
  - exists (Inline 0). repeat split; by compute.
  - revert Hrun. unfold NewBuilder. destruct (Z.leb_spec c 64); [| lia].
    rewrite (bind_run _ _ h (bitSet64_Builder 0) h) by done. intros Hrun.
    destruct (WithMany_run l h (bitSet64_Builder 0) (Inline 0) eq_refl
                (Forall_uint32_nonneg l Hl)) as (bld' & h'' & Hrun' & Hr).
    rewrite Hrun in Hrun'. injection Hrun' as <- <-.
    eexists. split; [exact Hr |]. split.
    + apply adds_minimal; [by apply Forall_uint32_nonneg | done].
    + apply adds_well_formed; [done |]. repeat split; by compute.
  - pose proof (uint32_nonneg i Hi).
    destruct (Add_inv _ _ _ _ _ _ Hr ltac:(done) Hrun) as [Hr' _].
    eexists. split; [exact Hr' |]. split.
    + by apply add_minimal.
    + by apply add_well_formed.
  - pose proof (uint32_nonneg i Hi).
    destruct (Remove_inv _ _ _ _ _ _ Hr ltac:(done) Hrun) as [Hr' _].
    eexists. split; [exact Hr' |]. split.
    + by apply remove_minimal.
    + by apply remove_well_formed.
  - exists r. split; [by apply repr_of_ext | done].
Qed.

Lemma reachable_produced h s : reachable h s -> produced h s.
Proof.
  induction 1; [apply prod_New | by eapply prod_Add | by eapply prod_Remove
                | by apply prod_later].
Qed.

End Invariant.

(** ** The claims *)

Lemma heap_of_repr h (t : BitSet) ws :
  repr_of h t = Some (Heap ws) ->
  exists s, t = largeBitSet s /\ slice_words h s = Some ws.
Proof.
  destruct t as [w | s]; cbn [repr_of]; [discriminate |].
  destruct (slice_words h s) as [ws' |] eqn:Hs; [| discriminate].
  cbn. intros [= <-]. by exists s.
Qed.

Lemma inline_of_repr h (t : BitSet) w :
  repr_of h t = Some (Inline w) -> t = bitSet64 w.
Proof.
  destruct t as [w' | s]; cbn [repr_of]; [by intros [= <-] |].
  destruct (slice_words h s); discriminate.
Qed.

Lemma store_ext_lookup (h ext : store) (l : loc) a :
  h !! l = Some a -> (h ++ ext) !! l = Some a.
Proof. apply lookup_app_l_Some. Qed.

(** C6. [Add] of an index [i >= 64] to the inline value [b] returns a heap
    value of exactly [i/64 + 1] words: slot 0 holds [b], slot [i/64] has
    exactly the bit [i mod 64] set and the slots in between are zero.  No
    array already in the store is written, and the inline word is a value. *)
Theorem inline_Add_promotes h b i :
  64 <= i ->
  exists s ws h',
    bitSet64_Add b i h = Some (largeBitSet s, h')
    /\ slice_words h' s = Some ws
    /\ Z.of_nat (length ws) = i / 64 + 1
    /\ ws !! 0%nat = Some b
    /\ ws !! Z.to_nat (i / 64) = Some (2 ^ (i mod 64))
    /\ (forall j : nat, 0 < Z.of_nat j < i / 64 -> ws !! j = Some 0)
    /\ (forall l a, h !! l = Some a -> h' !! l = Some a).
Proof.
  intros Hi.
  assert (1 <= i / 64) as Hidx by (apply Z.div_le_lower_bound; lia).
  pose proof (mod64_range i) as Hmod.
  pose proof (length_words_add [b] i) as Hlen. cbn [length] in Hlen.
  eexists _, (words_add [b] i), _.
  split; [by apply bitSet64_Add_run |].
  split; [apply slice_words_fresh |].
  split; [lia |].
  split; [| split; [| split]].
  - rewrite list_lookup_lookup_total_lt by lia.
    rewrite words_add_other_old; [done | lia | cbn [length]; lia].
  - rewrite list_lookup_lookup_total_lt by lia.
    rewrite words_add_target_new by (cbn [length]; lia).
    by rewrite shl1_pow2.
  - intros j Hj. rewrite list_lookup_lookup_total_lt by lia.
    rewrite words_add_other_new; [done | cbn [length]; lia].
  - intros l a. apply store_ext_lookup.
Qed.

Lemma inline_Add_promotes_witness :
  64 <= 200
  /\ exists s ws h',
       bitSet64_Add 1024 200 [] = Some (largeBitSet s, h')
       /\ slice_words h' s = Some ws
       /\ Z.of_nat (length ws) = 200 / 64 + 1
       /\ ws !! 0%nat = Some 1024
       /\ ws !! Z.to_nat (200 / 64) = Some (2 ^ (200 mod 64))
       /\ (forall j : nat, 0 < Z.of_nat j < 200 / 64 -> ws !! j = Some 0)
       /\ (forall l a, ([] : store) !! l = Some a -> h' !! l = Some a).
Proof. split; [lia | apply (inline_Add_promotes [] 1024 200); lia]. Defined.

(** C7. [New().Add(70).Add(200).Remove(200)] is a heap value of
    [70/64 + 1 = 2] words that has 70 and does not have 200. *)
Theorem shrink_after_Remove h :
  exists s ws h',
    (let* a := Add New 70 in
     let* b := Add a 200 in
     Remove b 200) h = Some (largeBitSet s, h')
    /\ slice_words h' s = Some ws
    /\ Z.of_nat (length ws) = 70 / 64 + 1
    /\ length ws = 2%nat
    /\ result (Has (largeBitSet s) 70) h' = Some true
    /\ result (Has (largeBitSet s) 200) h' = Some false.
Proof.
  destruct (Add_run h New (Inline 0) 70 eq_refl ltac:(lia))
    as (a & e1 & Ha & Hra).
  destruct (Add_run _ a _ 200 Hra ltac:(lia)) as (b & e2 & Hb & Hrb).
  destruct (Remove_run _ b _ 200 Hrb ltac:(lia)) as (c & e3 & Hc & Hrc).
  assert (repr_remove (repr_add (repr_add (Inline 0) 70) 200) 200
          = Heap [0; 64]) as Hval by (by vm_compute).
  rewrite Hval in Hrc.
  destruct (heap_of_repr _ _ _ Hrc) as (s & Hc' & Hs). subst c.
  exists s, [0; 64], (((h ++ e1) ++ e2) ++ e3).
  split; [| split; [done | split; [done | split; [done |]]]].
  - by rewrite (bind_run _ _ _ _ _ Ha), (bind_run _ _ _ _ _ Hb).
  - unfold result.
    rewrite (Has_run _ _ _ 70 Hrc), (Has_run _ _ _ 200 Hrc) by lia.
    split; by vm_compute.
Qed.

(** C8. [Has], [Add] and [Remove] return a result for every Set value and
    every [uint32] index.  When the slot of the index lies outside the
    representation, [Has] returns false, [Remove] returns the very same
    value and [Add] returns a heap value of [i/64 + 1] words that has the
    index. *)
Theorem operations_are_total h s r i :
  repr_of h s = Some r -> is_uint32 i ->
  (exists b, Has s i h = Some (b, h))
  /\ (exists t h', Add s i h = Some (t, h'))
  /\ (exists t h', Remove s i h = Some (t, h'))
  /\ (slot_out_of_range r i ->
      Has s i h = Some (false, h)
      /\ Remove s i h = Some (s, h)
      /\ exists t ws h',
           Add s i h = Some (largeBitSet t, h')
           /\ slice_words h' t = Some ws
           /\ Z.of_nat (length ws) = i / 64 + 1
           /\ result (Has (largeBitSet t) i) h' = Some true).
Proof.
  intros Hr Hi. pose proof (uint32_nonneg i Hi) as Hi0.
  pose proof (idx_nonneg i Hi0) as Hidx.
  destruct (Add_run h s r i Hr Hi0) as (t & ext & Hadd & Hrt).
  destruct (Remove_run h s r i Hr Hi0) as (u & ext' & Hrem & Hru).
  split; [exists (repr_has r i); by apply Has_run |].
  split; [by eauto |]. split; [by eauto |].
  intros Hout. rewrite (Has_run h s r i Hr Hi0).
  assert (repr_has r i = false /\ Remove s i h = Some (s, h)
          /\ exists ws, repr_add r i = Heap ws
                        /\ Z.of_nat (length ws) = i / 64 + 1)
    as (Hhas & Hsame & ws & Hws & Hlen).
  { destruct s as [b | b]; cbn [repr_of] in Hr.
    - injection Hr as <-. cbn [slot_out_of_range] in Hout.
      cbn [repr_has repr_add Remove]. unfold bitSet64_Has, bitSet64_Remove.
      destruct (Z.geb_spec i 64); [| lia].
      destruct (Z.ltb_spec i 64); [lia |].
      assert (1 <= i / 64) by (apply Z.div_le_lower_bound; lia).
      split; [done |]. split; [done |]. eexists. split; [done |].
      rewrite length_words_add. cbn [length]. lia.
    - destruct (slice_words h b) as [ws |] eqn:Hs; [| discriminate].
      injection Hr as <-. cbn [slot_out_of_range] in Hout.
      pose proof (slice_words_length _ _ _ Hs) as Hlen.
      cbn [repr_has repr_add Remove]. unfold largeBitSet_Remove.
      destruct (Z.geb_spec (i / 64) (len b)); [| lia].
      split; [apply words_has_out; lia |]. split; [done |].
      eexists. split; [done |]. rewrite length_words_add. lia. }
  rewrite Hhas. split; [done |]. split; [done |].
  rewrite Hws in Hrt. destruct (heap_of_repr _ _ _ Hrt) as (t' & Ht' & Ht).
  subst t.
  exists t', ws, (h ++ ext). split; [done |]. split; [done |].
  split; [done |]. unfold result.
  rewrite (Has_run _ _ _ i Hrt Hi0). rewrite <- Hws.
  rewrite repr_has_add by done. by rewrite Z.eqb_refl.
Qed.

Lemma operations_are_total_witness :
  repr_of [[5; 0; 9]] (largeBitSet (Slice 0 3)) = Some (Heap [5; 0; 9])
  /\ is_uint32 300
  /\ (exists b, Has (largeBitSet (Slice 0 3)) 300 [[5; 0; 9]]
                = Some (b, [[5; 0; 9]]))
  /\ (exists t h', Add (largeBitSet (Slice 0 3)) 300 [[5; 0; 9]]
                   = Some (t, h'))
  /\ (exists t h', Remove (largeBitSet (Slice 0 3)) 300 [[5; 0; 9]]
                   = Some (t, h')).
Proof.
  assert (repr_of [[5; 0; 9]] (largeBitSet (Slice 0 3))
          = Some (Heap [5; 0; 9])) as Hr by reflexivity.
  assert (is_uint32 300) as Hi by (unfold is_uint32; lia).
  destruct (operations_are_total _ _ _ _ Hr Hi) as (Hhas & Hadd & Hrem & _).
  exact (conj Hr (conj Hi (conj Hhas (conj Hadd Hrem)))).
Defined.

(** C4. Computing [S.Add(i)] or [S.Remove(i)] leaves [S] unchanged: every
    array that was in the store is still there with the same contents, so
    the representation of [S] is the same and [S.Has(k)] returns what it
    returned before, for every [k]. *)
Theorem Add_and_Remove_leave_the_argument h s r i :
  repr_of h s = Some r -> is_uint32 i ->
  forall op : BitSet -> Z -> M BitSet, op = Add \/ op = Remove ->
  exists t h',
    op s i h = Some (t, h')
    /\ (forall l a, h !! l = Some a -> h' !! l = Some a)
    /\ repr_of h' s = Some r
    /\ (forall k, is_uint32 k ->
          exists b, Has s k h = Some (b, h) /\ Has s k h' = Some (b, h')).
Proof.
  intros Hr Hi op Hop. pose proof (uint32_nonneg i Hi) as Hi0.
  assert (exists t ext, op s i h = Some (t, h ++ ext)) as (t & ext & Hrun).
  { destruct Hop as [-> | ->].
    - destruct (Add_run h s r i Hr Hi0) as (t & ext & Hrun & _); eauto.
    - destruct (Remove_run h s r i Hr Hi0) as (t & ext & Hrun & _); eauto. }
  exists t, (h ++ ext). split; [done |].
  split; [intros l a; apply store_ext_lookup |].
  pose proof (repr_of_ext h ext s r Hr) as Hr'.
  split; [done |]. intros k Hk. exists (repr_has r k).
  split; apply Has_run; try done; by apply uint32_nonneg.
Qed.

Lemma Add_and_Remove_leave_the_argument_witness :
  repr_of [[5; 0; 9]] (largeBitSet (Slice 0 3)) = Some (Heap [5; 0; 9])
  /\ is_uint32 130
  /\ exists t h',
       Remove (largeBitSet (Slice 0 3)) 130 [[5; 0; 9]] = Some (t, h')
       /\ (forall l a, [[5; 0; 9]] !! l = Some a -> h' !! l = Some a)
       /\ repr_of h' (largeBitSet (Slice 0 3)) = Some (Heap [5; 0; 9])
       /\ (forall k, is_uint32 k ->
             exists b,
               Has (largeBitSet (Slice 0 3)) k [[5; 0; 9]]
               = Some (b, [[5; 0; 9]])
               /\ Has (largeBitSet (Slice 0 3)) k h' = Some (b, h')).
Proof.
  assert (repr_of [[5; 0; 9]] (largeBitSet (Slice 0 3))
          = Some (Heap [5; 0; 9])) as Hr by reflexivity.
  assert (is_uint32 130) as Hi by (unfold is_uint32; lia).
  split; [exact Hr |]. split; [exact Hi |].
  exact (Add_and_Remove_leave_the_argument _ _ _ _ Hr Hi Remove
           (or_intror eq_refl)).
Defined.

(** C3. For a heap value [b] and an index [i] whose slot [i/64] is in range,
    [Remove] finds the [lastIdx] of the backward scan that skips all-zero
    words and, in the target slot only, a word whose sole set bit is the one
    being removed.  When [lastIdx <= 0] the result is the inline value made
    of slot 0's word, with the target bit cleared when the target slot is 0;
    otherwise it is a heap value of [lastIdx + 1] words, copied from [b]
    with the target bit cleared. *)
Theorem Remove_scans_then_demotes_or_shrinks h b ws i :
  slice_words h b = Some ws -> is_uint32 i ->
  i / 64 < Z.of_nat (length ws) ->
  exists lastIdx t h',
    spec_lastIdx ws (i / 64) (2 ^ (i mod 64)) lastIdx
    /\ largeBitSet_Remove b i h = Some (t, h')
    /\ (lastIdx <= 0 ->
        t = bitSet64 (if i / 64 =? 0
                      then Z.ldiff (ws !!! 0%nat) (2 ^ (i mod 64))
                      else ws !!! 0%nat))
    /\ (0 < lastIdx ->
        exists s ws',
          t = largeBitSet s
          /\ slice_words h' s = Some ws'
          /\ Z.of_nat (length ws') = lastIdx + 1
          /\ forall j : nat,
               Z.of_nat j <= lastIdx ->
               ws' !! j = Some (if Z.of_nat j =? i / 64
                               then Z.ldiff (ws !!! j) (2 ^ (i mod 64))
                               else ws !!! j)).
Proof.
  intros Hs Hi Hin. pose proof (uint32_nonneg i Hi) as Hi0.
  pose proof (idx_nonneg i Hi0) as Hidx. pose proof (mod64_range i) as Hmod.
  destruct (largeBitSet_Remove_run h b ws i Hs Hi0) as (t & ext & Hrun & Hr).
  set (l := last_kept ws (i / 64) (2 ^ (i mod 64)) (length ws)).
  pose proof (last_kept_spec ws (i / 64) (2 ^ (i mod 64))) as Hspec.
  fold l in Hspec. pose proof Hspec as (Hb & _ & _).
  exists l, t, (h ++ ext). split; [done |]. split; [done |].
  revert Hr. cbn [repr_remove]. rewrite shl1_pow2 by done. fold l.
  destruct (Z.geb_spec (i / 64) (Z.of_nat (length ws))); [lia |].
  destruct (Z.leb_spec l 0) as [Hle | Hgt]; intros Hr.
  - split; [intros _ | lia]. apply inline_of_repr in Hr. rewrite Hr. f_equal.
    destruct (Z.eqb_spec (i / 64) 0) as [Hz | Hnz].
    + assert (i mod 64 = i) as Hsmall.
      { pose proof (Z.div_mod i 64 ltac:(lia)). lia. }
      rewrite shl1_pow2 by lia. rewrite Hsmall.
      destruct (Z.eqb_spec (ws !!! 0%nat) 0) as [-> |]; [| done].
      cbn [negb andb]. by rewrite Z.ldiff_0_l.
    + by rewrite andb_false_r.
  - split; [lia | intros _].
    destruct (heap_of_repr _ _ _ Hr) as (s & Ht & Hs'). subst t.
    eexists s, _. split; [done |]. split; [exact Hs' |].
    set (k := Z.to_nat (l + 1)).
    assert (length (take k ws) = k) as Hk by (rewrite length_take; lia).
    destruct (Z.ltb_spec (i / 64) (l + 1)).
    + split; [rewrite length_alter; lia |]. intros j Hj.
      rewrite list_lookup_alter.
      destruct (decide (Z.to_nat (i / 64) = j)) as [<- | Hne].
      * rewrite Z2Nat.id, Z.eqb_refl by done.
        rewrite lookup_take_lt by lia.
        by rewrite list_lookup_lookup_total_lt by lia.
      * destruct (Z.eqb_spec (Z.of_nat j) (i / 64)); [lia |].
        rewrite lookup_take_lt by lia.
        by rewrite list_lookup_lookup_total_lt by lia.
    + split; [lia |]. intros j Hj.
      destruct (Z.eqb_spec (Z.of_nat j) (i / 64)); [lia |].
      rewrite lookup_take_lt by lia.
      by rewrite list_lookup_lookup_total_lt by lia.
Qed.

Lemma Remove_scans_then_demotes_or_shrinks_witness :
  slice_words [[0; 64; 0; 256]] (Slice 0 4) = Some [0; 64; 0; 256]
  /\ is_uint32 200
  /\ 200 / 64 < Z.of_nat (length [0; 64; 0; 256])
  /\ exists lastIdx t h',
       spec_lastIdx [0; 64; 0; 256] (200 / 64) (2 ^ (200 mod 64)) lastIdx
       /\ largeBitSet_Remove (Slice 0 4) 200 [[0; 64; 0; 256]] = Some (t, h').
Proof.
  assert (slice_words [[0; 64; 0; 256]] (Slice 0 4) = Some [0; 64; 0; 256])
    as Hs by reflexivity.
  assert (is_uint32 200) as Hi by (unfold is_uint32; lia).
  assert (200 / 64 < Z.of_nat (length [0; 64; 0; 256])) as Hin
    by (by vm_compute).
  split; [exact Hs |]. split; [exact Hi |]. split; [exact Hin |].
  destruct (Remove_scans_then_demotes_or_shrinks _ _ _ _ Hs Hi Hin)
    as (l & t & h' & Hspec & Hrun & _).
  by exists l, t, h'.
Defined.

(** C10. For every word sequence [b], trailing zero words included, and
    every index whose slot is in range, [Remove] returns an inline value or
    a heap value of at least two words whose last word is not zero. *)
Theorem Remove_in_range_normalizes h b ws i :
  slice_words h b = Some ws -> is_uint32 i ->
  i / 64 < Z.of_nat (length ws) ->
  exists t h',
    largeBitSet_Remove b i h = Some (t, h')
    /\ match t with
       | bitSet64 _ => True
       | largeBitSet s =>
           exists ws', slice_words h' s = Some ws'
                       /\ (2 <= length ws')%nat
                       /\ last ws' <> Some 0
       end.
Proof.
  intros Hs Hi Hin. pose proof (uint32_nonneg i Hi) as Hi0.
  destruct (largeBitSet_Remove_run h b ws i Hs Hi0) as (t & ext & Hrun & Hr).
  exists t, (h ++ ext). split; [done |].
  pose proof (remove_in_range_minimal ws i Hi0 Hin) as Hmin.
  destruct t as [w | s]; [done |].
  destruct (repr_remove (Heap ws) i) as [w | ws'] eqn:Hrem.
  - cbn [repr_of] in Hr. destruct (slice_words (h ++ ext) s); discriminate.
  - destruct (heap_of_repr _ _ _ Hr) as (s' & [= <-] & Hs').
    exists ws'. destruct Hmin as [Hlen Hlast].
    split; [done |]. split; [done |].
    rewrite last_lookup, <- Nat.sub_1_r.
    rewrite list_lookup_lookup_total_lt by lia. congruence.
Qed.

Lemma Remove_in_range_normalizes_witness :
  slice_words [[7; 0; 32; 0]] (Slice 0 4) = Some [7; 0; 32; 0]
  /\ is_uint32 133
  /\ 133 / 64 < Z.of_nat (length [7; 0; 32; 0])
  /\ exists t h',
       largeBitSet_Remove (Slice 0 4) 133 [[7; 0; 32; 0]] = Some (t, h')
       /\ match t with
          | bitSet64 _ => True
          | largeBitSet s =>
              exists ws', slice_words h' s = Some ws'
                          /\ (2 <= length ws')%nat
                          /\ last ws' <> Some 0
          end.
Proof.
  assert (slice_words [[7; 0; 32; 0]] (Slice 0 4) = Some [7; 0; 32; 0])
    as Hs by reflexivity.
  assert (is_uint32 133) as Hi by (unfold is_uint32; lia).
  assert (133 / 64 < Z.of_nat (length [7; 0; 32; 0])) as Hin
    by (by vm_compute).
  split; [exact Hs |]. split; [exact Hi |]. split; [exact Hin |].
  exact (Remove_in_range_normalizes _ _ _ _ Hs Hi Hin).
Defined.

Lemma heap_minimal_last (ws : list Z) :
  heap_minimal ws -> (2 <= length ws)%nat /\ last ws <> Some 0.
Proof.
  intros [Hlen Hlast]. split; [done |].
  rewrite last_lookup, <- Nat.sub_1_r.
  rewrite list_lookup_lookup_total_lt by lia. congruence.
Qed.

Lemma empty_inline_has k : bitSet64_Has 0 k = false.
Proof.
  unfold bitSet64_Has. destruct (k >=? 64); [done |].
  by rewrite Z.land_0_l.
Qed.

(** C5. For every sequence of [uint32] indices, [NewBuilder(0)], [WithMany]
    over the sequence and [Build] give a Set that has exactly the indices of
    the sequence, and whose representation is the one obtained by folding
    [Add] over the sequence from [New()]. *)
Theorem builder_equals_repeated_Add h (l : list Z) :
  Forall is_uint32 l ->
  exists bld h1 s h2 r,
    (let* b := NewBuilder 0 in WithMany b l) h = Some (bld, h1)
    /\ AddMany New l h = Some (s, h2)
    /\ repr_of h1 (Build bld) = Some r
    /\ repr_of h2 s = Some r
    /\ forall k, is_uint32 k ->
         exists b, Has (Build bld) k h1 = Some (b, h1)
                   /\ (b = true <-> In k l).
Proof.
  intros Hl. pose proof (Forall_uint32_nonneg l Hl) as Hl0.
  destruct (WithMany_run l h (bitSet64_Builder 0) (Inline 0) eq_refl Hl0)
    as (bld & h1 & Hbld & Hr1).
  destruct (AddMany_run l h New (Inline 0) eq_refl Hl0)
    as (s & ext & Hadd & Hr2).
  exists bld, h1, s, (h ++ ext), (foldl repr_add (Inline 0) l).
  split; [done |]. split; [done |]. split; [done |]. split; [done |].
  intros k Hk. pose proof (uint32_nonneg k Hk) as Hk0.
  eexists. split; [by apply Has_run |].
  rewrite repr_has_adds by done. cbn [repr_has].
  rewrite empty_inline_has, orb_false_r, existsb_exists. split.
  - intros (x & Hx & ->%Z.eqb_eq). done.
  - intros Hin. exists k. by rewrite Z.eqb_refl.
Qed.

Lemma builder_equals_repeated_Add_witness :
  Forall is_uint32 [10; 100; 3; 300; 100]
  /\ exists bld h1 s h2 r,
       (let* b := NewBuilder 0 in WithMany b [10; 100; 3; 300; 100]) []
       = Some (bld, h1)
       /\ AddMany New [10; 100; 3; 300; 100] [] = Some (s, h2)
       /\ repr_of h1 (Build bld) = Some r
       /\ repr_of h2 s = Some r
       /\ forall k, is_uint32 k ->
            exists b, Has (Build bld) k h1 = Some (b, h1)
                      /\ (b = true <-> In k [10; 100; 3; 300; 100]).
Proof.
  assert (Forall is_uint32 [10; 100; 3; 300; 100]) as Hl
    by (repeat constructor; unfold is_uint32; lia).
  split; [exact Hl |].
  exact (builder_equals_repeated_Add [] [10; 100; 3; 300; 100] Hl).
Defined.

(** C2, as the code has it.  For every Set value that is inline, or heap
    with at least two words and a non-zero last word, and every index [i]
    it does not have, [Add(i)] followed by [Remove(i)] gives a value with
    exactly the representation of the original. *)
Theorem Add_then_Remove_restores h s r i :
  repr_of h s = Some r -> minimal r -> is_uint32 i ->
  result (Has s i) h = Some false ->
  exists t h1 u h2,
    Add s i h = Some (t, h1)
    /\ Remove t i h1 = Some (u, h2)
    /\ repr_of h2 u = Some r.
Proof.
  intros Hr Hmin Hi Hhas. pose proof (uint32_nonneg i Hi) as Hi0.
  unfold result in Hhas. rewrite (Has_run h s r i Hr Hi0) in Hhas.
  injection Hhas as Hhas.
  destruct (Add_run h s r i Hr Hi0) as (t & e1 & Hadd & Hrt).
  destruct (Remove_run _ t _ i Hrt Hi0) as (u & e2 & Hrem & Hru).
  exists t, (h ++ e1), u, ((h ++ e1) ++ e2).
  split; [done |]. split; [done |].
  by rewrite Hru, add_remove_roundtrip.
Qed.

Lemma Add_then_Remove_restores_witness :
  repr_of [[5; 0; 9]] (largeBitSet (Slice 0 3)) = Some (Heap [5; 0; 9])
  /\ minimal (Heap [5; 0; 9])
  /\ is_uint32 70
  /\ result (Has (largeBitSet (Slice 0 3)) 70) [[5; 0; 9]] = Some false
  /\ exists t h1 u h2,
       Add (largeBitSet (Slice 0 3)) 70 [[5; 0; 9]] = Some (t, h1)
       /\ Remove t 70 h1 = Some (u, h2)
       /\ repr_of h2 u = Some (Heap [5; 0; 9]).
Proof.
  assert (repr_of [[5; 0; 9]] (largeBitSet (Slice 0 3))
          = Some (Heap [5; 0; 9])) as Hr by reflexivity.
  assert (minimal (Heap [5; 0; 9])) as Hmin
    by (split; [cbn; lia | by vm_compute]).
  assert (is_uint32 70) as Hi by (unfold is_uint32; lia).
  assert (result (Has (largeBitSet (Slice 0 3)) 70) [[5; 0; 9]] = Some false)
    as Hhas by reflexivity.
  split; [exact Hr |]. split; [exact Hmin |]. split; [exact Hi |].
  split; [exact Hhas |].
  exact (Add_then_Remove_restores _ _ _ _ Hr Hmin Hi Hhas).
Defined.

(** C2 fails as stated: the Set built by [NewBuilder(200).Build()] is a heap
    value of four zero words that does not have 5, and [Add(5)] followed by
    [Remove(5)] gives the inline value 0, another representation. *)
Lemma Add_then_Remove_drifts_after_Build :
  exists bld h s t h1 u h2,
    NewBuilder 200 [] = Some (bld, h)
    /\ s = Build bld
    /\ result (Has s 5) h = Some false
    /\ Add s 5 h = Some (t, h1)
    /\ Remove t 5 h1 = Some (u, h2)
    /\ repr_of h s = Some (Heap [0; 0; 0; 0])
    /\ repr_of h2 u = Some (Inline 0)
    /\ repr_of h2 u <> repr_of h s.
Proof.
  eexists _, _, _, _, _, _, _.
  split; [by vm_compute |]. split; [reflexivity |].
  split; [by vm_compute |]. split; [by vm_compute |].
  split; [by vm_compute |]. split; [by vm_compute |].
  split; [by vm_compute |]. by vm_compute.
Qed.

(** C1, as the code has it.  Every Set value made by [New()], by [Add] or
    [Remove] from such a value, or by [Build()] on a Builder that started
    from a capacity hint of at most 64 is, when heap, at least two words long
    with a non-zero last word, and it has a member at index 64 or above. *)
Theorem produced_heap_is_minimal h s :
  produced h s ->
  match s with
  | bitSet64 _ => True
  | largeBitSet b =>
      exists ws, slice_words h b = Some ws
                 /\ (2 <= length ws)%nat /\ last ws <> Some 0
                 /\ exists k, is_uint32 k /\ 64 <= k
                              /\ Has s k h = Some (true, h)
  end.
Proof.
  intros Hp. destruct (produced_invariant h s Hp) as (r & Hr & Hmin & Hwf).
  destruct s as [w | b]; [done |].
  cbn [repr_of] in Hr.
  destruct (slice_words h b) as [ws |] eqn:Hs; [| discriminate].
  injection Hr as <-. cbn [minimal] in Hmin.
  destruct (heap_minimal_last ws Hmin) as [Hlen Hlast].
  exists ws. split; [done |]. split; [done |]. split; [done |].
  destruct (heap_member ws Hwf Hmin) as (k & Hk & Hslot & Hhas).
  exists k. split; [done |]. split.
  - assert (1 <= k / 64) as H1 by lia.
    pose proof (Z.mul_div_le k 64 ltac:(lia)). lia.
  - assert (repr_of h (largeBitSet b) = Some (Heap ws)) as Hr
      by (cbn [repr_of]; by rewrite Hs).
    rewrite (Has_run h (largeBitSet b) (Heap ws) k Hr (uint32_nonneg k Hk)).
    cbn [repr_has]. by rewrite Hhas.
Qed.

Lemma produced_heap_is_minimal_witness :
  produced [[8; 0; 4]] (largeBitSet (Slice 0 3))
  /\ exists ws, slice_words [[8; 0; 4]] (Slice 0 3) = Some ws
                /\ (2 <= length ws)%nat /\ last ws <> Some 0
                /\ exists k, is_uint32 k /\ 64 <= k
                             /\ Has (largeBitSet (Slice 0 3)) k [[8; 0; 4]]
                                = Some (true, [[8; 0; 4]]).
Proof.
  assert (Forall is_uint32 [3; 130]) as Hl
    by (repeat constructor; unfold is_uint32; lia).
  assert (produced [[8; 0; 4]] (largeBitSet (Slice 0 3))) as Hp.
  { apply (prod_Build [] 10 [3; 130] (bitSetBuilder (Slice 0 3)) [[8; 0; 4]]);
      [lia | exact Hl | reflexivity]. }
  split; [exact Hp |].
  exact (produced_heap_is_minimal _ _ Hp).
Defined.

(** C1 fails as stated: [NewBuilder(200).Build()] is a heap value whose four
    words are all zero, so its last word is zero and it has no member at all,
    where the inline value 0 is the minimal representation of its set. *)
Lemma Build_keeps_preallocated_zero_words :
  exists bld h b ws,
    NewBuilder 200 [] = Some (bld, h)
    /\ Build bld = largeBitSet b
    /\ slice_words h b = Some ws
    /\ ws = [0; 0; 0; 0] /\ last ws = Some 0
    /\ forall k, is_uint32 k -> Has (Build bld) k h = Some (false, h).
Proof.
  exists (bitSetBuilder (Slice 0 4)), [[0; 0; 0; 0]], (Slice 0 4), [0; 0; 0; 0].
  split; [reflexivity |]. split; [reflexivity |]. split; [reflexivity |].
  split; [reflexivity |]. split; [reflexivity |].
  intros k Hk. cbn [Build].
  rewrite (Has_run [[0; 0; 0; 0]] (largeBitSet (Slice 0 4))
             (Heap [0; 0; 0; 0]) k eq_refl (uint32_nonneg k Hk)).
  f_equal. f_equal. cbn [repr_has]. unfold words_has.
  destruct ([0; 0; 0; 0] !! Z.to_nat (k / 64)) as [w |] eqn:Hw; [| done].
  assert (w = 0) as ->.
  { apply list_elem_of_lookup_2 in Hw.
    repeat (apply elem_of_cons in Hw as [-> | Hw]; [done |]).
    by apply elem_of_nil in Hw. }
  by rewrite Z.land_0_l.
Qed.

(** C9. A Set value reached from [New()] by [Add] and [Remove] is, when
    heap, at least two words long with a non-zero last word; and two such
    values that answer [Has] alike on every [uint32] index have the same
    representation, form and words. *)
Theorem reachable_is_canonical h1 s1 h2 s2 :
  reachable h1 s1 -> reachable h2 s2 ->
  match s1 with
  | bitSet64 _ => True
  | largeBitSet b =>
      exists ws, slice_words h1 b = Some ws
                 /\ (2 <= length ws)%nat /\ last ws <> Some 0
  end
  /\ ((forall k, is_uint32 k -> result (Has s1 k) h1 = result (Has s2 k) h2) ->
      exists r, repr_of h1 s1 = Some r /\ repr_of h2 s2 = Some r).
Proof.
  intros Hp1%reachable_produced Hp2%reachable_produced. split.
  - destruct (produced_invariant h1 s1 Hp1) as (r & Hr & Hmin & _).
    destruct s1 as [w | b]; [done |]. cbn [repr_of] in Hr.
    destruct (slice_words h1 b) as [ws |]; [| discriminate].
    injection Hr as <-. exists ws. split; [done |].
    by apply heap_minimal_last.
  - intros Hsame.
    destruct (produced_invariant h1 s1 Hp1) as (r1 & Hr1 & Hmin1 & Hwf1).
    destruct (produced_invariant h2 s2 Hp2) as (r2 & Hr2 & Hmin2 & Hwf2).
    exists r1. split; [done |]. rewrite Hr2. f_equal. symmetry.
    apply has_ext; try done.
    intros k Hk. specialize (Hsame k Hk). unfold result in Hsame.
    rewrite (Has_run h1 s1 r1 k Hr1 (uint32_nonneg k Hk)) in Hsame.
    rewrite (Has_run h2 s2 r2 k Hr2 (uint32_nonneg k Hk)) in Hsame.
    by injection Hsame.
Qed.

Lemma reachable_is_canonical_witness :
  reachable [[0; 64]] (largeBitSet (Slice 0 2))
  /\ reachable [[0; 64]; [0; 64; 0; 256]; [0; 64]] (largeBitSet (Slice 2 2))
  /\ (exists ws, slice_words [[0; 64]] (Slice 0 2) = Some ws
                 /\ (2 <= length ws)%nat /\ last ws <> Some 0)
  /\ ((forall k, is_uint32 k ->
         result (Has (largeBitSet (Slice 0 2)) k) [[0; 64]]
         = result (Has (largeBitSet (Slice 2 2)) k)
             [[0; 64]; [0; 64; 0; 256]; [0; 64]]) ->
      exists r, repr_of [[0; 64]] (largeBitSet (Slice 0 2)) = Some r
                /\ repr_of [[0; 64]; [0; 64; 0; 256]; [0; 64]]
                     (largeBitSet (Slice 2 2)) = Some r).
Proof.
  assert (is_uint32 70) as H70 by (unfold is_uint32; lia).
  assert (is_uint32 200) as H200 by (unfold is_uint32; lia).
  assert (reachable [[0; 64]] (largeBitSet (Slice 0 2))) as R1.
  { apply (reach_Add [] New 70 _ _ (reach_New []) H70). reflexivity. }
  assert (reachable [[0; 64]; [0; 64; 0; 256]] (largeBitSet (Slice 1 4)))
    as R2.
  { apply (reach_Add _ _ 200 _ _ R1 H200). reflexivity. }
  assert (reachable [[0; 64]; [0; 64; 0; 256]; [0; 64]]
            (largeBitSet (Slice 2 2))) as R3.
  { apply (reach_Remove _ _ 200 _ _ R2 H200). reflexivity. }
  split; [exact R1 |]. split; [exact R3 |].
  exact (reachable_is_canonical _ _ _ _ R1 R3).
Defined.

(** ** Membership after [Add] and [Remove] *)

Lemma skipped_has ws i k :
  0 <= i -> 0 <= k -> (Z.to_nat (k / 64) < length ws)%nat ->
  skipped (i / 64) (shl1 (i mod 64)) (k / 64) (ws !!! Z.to_nat (k / 64))
  = true ->
  negb (k =? i) && words_has ws k = false.
Proof.
  intros Hi Hk Hin Hskip.
  pose proof (mod64_range i). pose proof (mod64_range k).
  rewrite words_has_testbit by done.
  apply skipped_true in Hskip as [-> | [Hslot ->]].
  - by rewrite Z.bits_0, andb_false_r.
  - rewrite shl1_pow2, pow2_testbit, (same_slot_eqb i k) by (done || lia).
    by destruct (k =? i).
Qed.

Lemma inline_has_ldiff b i k :
  0 <= i < 64 -> 0 <= k ->
  bitSet64_Has (Z.ldiff b (shl1 i)) k = negb (k =? i) && bitSet64_Has b k.
Proof.
  intros Hi Hk. unfold bitSet64_Has.
  destruct (Z.geb_spec k 64); [by rewrite andb_false_r |].
  rewrite !shl1_pow2, !has_bit by lia.
  rewrite Z.ldiff_spec, pow2_testbit by lia.
  rewrite (Z.eqb_sym i k). apply andb_comm.
Qed.

Lemma repr_has_remove r i k :
  0 <= i -> 0 <= k ->
  repr_has (repr_remove r i) k = negb (k =? i) && repr_has r k.
Proof.
  intros Hi Hk. pose proof (idx_nonneg i Hi) as Hidx.
  pose proof (idx_nonneg k Hk) as Hkdx.
  pose proof (mod64_range i). pose proof (mod64_range k).
  destruct r as [b | ws]; cbn [repr_remove repr_has].
  - destruct (Z.geb_spec i 64) as [Hge | Hlt].
    + unfold bitSet64_Has.
      destruct (Z.geb_spec k 64); [by rewrite andb_false_r |].
      destruct (Z.eqb_spec k i); [lia | done].
    + by apply inline_has_ldiff.
  - destruct (Z.geb_spec (i / 64) (Z.of_nat (length ws))) as [Hout | Hin];
      cbn [repr_has].
    { destruct (Z.eqb_spec k i) as [-> |]; [| done].
      cbn. apply words_has_out. lia. }
    set (l := last_kept ws (i / 64) (shl1 (i mod 64)) (length ws)).
    pose proof (last_kept_bounds ws (i / 64) (shl1 (i mod 64)) (length ws))
      as Hl. fold l in Hl.
    assert (forall j : nat, l < Z.of_nat j < Z.of_nat (length ws) ->
              skipped (i / 64) (shl1 (i mod 64)) (Z.of_nat j) (ws !!! j) = true)
      as Habove
      by (intros j Hj; by apply (last_kept_above ws _ _ (length ws))).
    assert (l < k / 64 -> negb (k =? i) && words_has ws k = false) as Hcut.
    { intros Hgt.
      destruct (decide (Z.to_nat (k / 64) < length ws)%nat) as [Hkin | Hkout].
      - apply skipped_has; try done.
        specialize (Habove (Z.to_nat (k / 64))).
        rewrite Z2Nat.id in Habove by done. apply Habove. lia.
      - rewrite words_has_out by lia. apply andb_false_r. }
    destruct (Z.leb_spec l 0) as [Hle | Hgt]; cbn [repr_has].
    + destruct (Z.ltb_spec k 64) as [Hk0 | Hk1].
      * assert (k / 64 = 0) as Hslot by (apply Z.div_small; lia).
        assert (words_has ws k = bitSet64_Has (ws !!! 0%nat) k) as Hw.
        { rewrite words_has_testbit by (rewrite ?Hslot; lia).
          rewrite Hslot, Z.mod_small by lia. unfold bitSet64_Has.
          destruct (Z.geb_spec k 64); [lia |].
          by rewrite shl1_pow2, has_bit by lia. }
        rewrite Hw.
        destruct (Z.eqb_spec (i / 64) 0) as [Hi0 | Hi0].
        -- assert (0 <= i < 64) as Hi64.
           { split; [done |].
             pose proof (Z.div_mod i 64 ltac:(lia)). lia. }
           rewrite <- inline_has_ldiff by done.
           destruct (Z.eqb_spec (ws !!! 0%nat) 0) as [-> |]; cbn [negb andb];
             [by rewrite Z.ldiff_0_l | done].
        -- rewrite andb_false_r.
           destruct (Z.eqb_spec k i) as [-> |]; [| done].
           rewrite Z.div_small in Hi0 by lia. done.
      * rewrite Hcut.
        -- unfold bitSet64_Has. by destruct (Z.geb_spec k 64); [| lia].
        -- assert (1 <= k / 64) by (apply Z.div_le_lower_bound; lia). lia.
    + set (bits := take (Z.to_nat (l + 1)) ws).
      assert (length bits = Z.to_nat (l + 1)) as Hbits
        by (unfold bits; rewrite length_take; lia).
      destruct (Z.leb_spec (k / 64) l) as [Hkl | Hkl].
      2:{ rewrite Hcut by lia. apply words_has_out.
          destruct (i / 64 <? l + 1); rewrite ?length_alter; lia. }
      assert (bits !!! Z.to_nat (k / 64) = ws !!! Z.to_nat (k / 64)) as Hsame.
      { unfold bits. rewrite !list_lookup_total_alt, lookup_take_lt by lia.
        done. }
      destruct (decide (k / 64 = i / 64)) as [Hslot | Hslot].
      * destruct (Z.ltb_spec (i / 64) (l + 1)); [| lia].
        rewrite !words_has_testbit by (rewrite ?length_alter; lia).
        rewrite <- Hsame, Hslot, list_lookup_total_alter.
        rewrite decide_True by (split; [done | lia]).
        rewrite shl1_pow2, Z.ldiff_spec, pow2_testbit by lia.
        rewrite (same_slot_eqb i k) by done. apply andb_comm.
      * destruct (Z.eqb_spec k i) as [-> |]; [done |]. cbn [negb andb].
        rewrite !words_has_testbit
          by (destruct (i / 64 <? l + 1); rewrite ?length_alter; lia).
        f_equal. rewrite <- Hsame.
        destruct (i / 64 <? l + 1); [| done].
        apply list_lookup_total_alter_ne. lia.
Qed.

(** X1.  After [Add(i)], the result has [i] and, on every other index,
    answers [Has] as the receiver does. *)
Theorem Has_after_Add h s r i k :
  repr_of h s = Some r -> is_uint32 i -> is_uint32 k ->
  exists t h' b,
    Add s i h = Some (t, h')
    /\ Has s k h = Some (b, h)
    /\ Has t k h' = Some ((k =? i) || b, h').
Proof.
  intros Hr Hi%uint32_nonneg Hk%uint32_nonneg.
  destruct (Add_run h s r i Hr Hi) as (t & ext & Hadd & Hrt).
  exists t, (h ++ ext), (repr_has r k).
  split; [done |]. split; [by apply Has_run |].
  rewrite (Has_run _ t _ k Hrt Hk). by rewrite repr_has_add.
Qed.

Lemma Has_after_Add_witness :
  repr_of [[5; 0; 9]] (largeBitSet (Slice 0 3)) = Some (Heap [5; 0; 9])
  /\ is_uint32 300 /\ is_uint32 131
  /\ exists t h' b,
       Add (largeBitSet (Slice 0 3)) 300 [[5; 0; 9]] = Some (t, h')
       /\ Has (largeBitSet (Slice 0 3)) 131 [[5; 0; 9]] = Some (b, [[5; 0; 9]])
       /\ Has t 131 h' = Some ((131 =? 300) || b, h').
Proof.
  assert (is_uint32 300) as Hi by (unfold is_uint32; lia).
  assert (is_uint32 131) as Hk by (unfold is_uint32; lia).
  split; [reflexivity |]. split; [exact Hi |]. split; [exact Hk |].
  exact (Has_after_Add [[5; 0; 9]] (largeBitSet (Slice 0 3)) (Heap [5; 0; 9])
           300 131 eq_refl Hi Hk).
Defined.

(** X2.  After [Remove(i)], the result lacks [i] and, on every other index,
    answers [Has] as the receiver does; whatever words the receiver holds. *)
Theorem Has_after_Remove h s r i k :
  repr_of h s = Some r -> is_uint32 i -> is_uint32 k ->
  exists t h' b,
    Remove s i h = Some (t, h')
    /\ Has s k h = Some (b, h)
    /\ Has t k h' = Some (negb (k =? i) && b, h').
Proof.
  intros Hr Hi%uint32_nonneg Hk%uint32_nonneg.
  destruct (Remove_run h s r i Hr Hi) as (t & ext & Hrem & Hrt).
  exists t, (h ++ ext), (repr_has r k).
  split; [done |]. split; [by apply Has_run |].
  rewrite (Has_run _ t _ k Hrt Hk). by rewrite repr_has_remove.
Qed.

Lemma Has_after_Remove_witness :
  repr_of [[5; 0; 8; 0]] (largeBitSet (Slice 0 4)) = Some (Heap [5; 0; 8; 0])
  /\ is_uint32 131 /\ is_uint32 2
  /\ exists t h' b,
       Remove (largeBitSet (Slice 0 4)) 131 [[5; 0; 8; 0]] = Some (t, h')
       /\ Has (largeBitSet (Slice 0 4)) 2 [[5; 0; 8; 0]]
          = Some (b, [[5; 0; 8; 0]])
       /\ Has t 2 h' = Some (negb (2 =? 131) && b, h').
Proof.
  assert (is_uint32 131) as Hi by (unfold is_uint32; lia).
  assert (is_uint32 2) as Hk by (unfold is_uint32; lia).
  split; [reflexivity |]. split; [exact Hi |]. split; [exact Hk |].
  exact (Has_after_Remove [[5; 0; 8; 0]] (largeBitSet (Slice 0 4))
           (Heap [5; 0; 8; 0]) 131 2 eq_refl Hi Hk).
Defined.

(** ** Algebra of [Add] and [Remove] *)

Lemma words_ext ws1 ws2 :
  well_formed (Heap ws1) -> well_formed (Heap ws2) ->
  length ws1 = length ws2 ->
  (forall k, is_uint32 k -> words_has ws1 k = words_has ws2 k) -> ws1 = ws2.
Proof.
  intros [Hu1 Hl1] [Hu2 Hl2] Heq Hsame.
  apply list_eq_same_length with (length ws1); [done | by rewrite Heq |].
  intros j w1 w2 Hj Hw1 Hw2.
  apply uint64_ext.
  - eapply Forall_lookup_1; [exact Hu1 | exact Hw1].
  - eapply Forall_lookup_1; [exact Hu2 | exact Hw2].
  - intros c Hc.
    assert ((Z.of_nat j * 64 + c) / 64 = Z.of_nat j) as Hdiv
      by (rewrite Z.div_add_l, Z.div_small by lia; lia).
    assert ((Z.of_nat j * 64 + c) mod 64 = c) as Hmod
      by (rewrite Z.add_comm, Z.mod_add, Z.mod_small by lia; lia).
    specialize (Hsame (Z.of_nat j * 64 + c)).
    rewrite !words_has_testbit in Hsame
      by (rewrite ?Hdiv, ?Nat2Z.id; lia).
    rewrite Hdiv, Hmod, Nat2Z.id in Hsame.
    rewrite !list_lookup_total_alt, Hw1, Hw2 in Hsame. cbn in Hsame.
    apply Hsame. unfold is_uint32.
    change (2 ^ 32) with (2 ^ 26 * 64). nia.
Qed.

Lemma repr_add_comm r i j :
  is_uint32 i -> is_uint32 j -> well_formed r ->
  repr_add (repr_add r i) j = repr_add (repr_add r j) i.
Proof.
  intros Hi Hj Hwf.
  pose proof (uint32_nonneg i Hi) as Hi0.
  pose proof (uint32_nonneg j Hj) as Hj0.
  pose proof (idx_nonneg i Hi0). pose proof (idx_nonneg j Hj0).
  pose proof (Z.div_small i 64). pose proof (Z.div_small j 64).
  pose proof (add_well_formed _ j Hj (add_well_formed r i Hi Hwf)) as Hw1.
  pose proof (add_well_formed _ i Hi (add_well_formed r j Hj Hwf)) as Hw2.
  assert (forall k, is_uint32 k ->
            repr_has (repr_add (repr_add r i) j) k
            = repr_has (repr_add (repr_add r j) i) k) as Hsame.
  { intros k Hk%uint32_nonneg. rewrite !repr_has_add by done.
    by destruct (k =? i), (k =? j). }
  revert Hw1 Hw2 Hsame.
  destruct r as [b | ws]; cbn [repr_add].
  - destruct (Z.ltb_spec i 64), (Z.ltb_spec j 64); cbn [repr_add];
      repeat match goal with
             | |- context [if ?x <? 64 then _ else _] =>
                 destruct (Z.ltb_spec x 64); [try lia | try lia]
             end; cbn [repr_add]; intros Hw1 Hw2 Hsame.
    + by apply has_ext.
    + f_equal. apply words_ext; try done.
      rewrite !length_words_add. cbn [length]. lia.
    + f_equal. apply words_ext; try done.
      rewrite !length_words_add. cbn [length]. lia.
    + f_equal. apply words_ext; try done.
      rewrite !length_words_add. lia.
  - intros Hw1 Hw2 Hsame. f_equal. apply words_ext; try done.
    rewrite !length_words_add. lia.
Qed.

Lemma repr_add_idem r i :
  is_uint32 i -> well_formed r -> repr_add (repr_add r i) i = repr_add r i.
Proof.
  intros Hi Hwf.
  pose proof (uint32_nonneg i Hi) as Hi0. pose proof (idx_nonneg i Hi0).
  pose proof (add_well_formed _ i Hi (add_well_formed r i Hi Hwf)) as Hw1.
  pose proof (add_well_formed r i Hi Hwf) as Hw2.
  assert (forall k, is_uint32 k ->
            repr_has (repr_add (repr_add r i) i) k
            = repr_has (repr_add r i) k) as Hsame.
  { intros k Hk%uint32_nonneg. rewrite !repr_has_add by done.
    by destruct (k =? i). }
  revert Hw1 Hw2 Hsame.
  destruct r as [b | ws]; cbn [repr_add].
  - destruct (Z.ltb_spec i 64); cbn [repr_add];
      [destruct (Z.ltb_spec i 64); [| lia] |]; intros Hw1 Hw2 Hsame.
    + by apply has_ext.
    + f_equal. apply words_ext; try done.
      rewrite !length_words_add. lia.
  - intros Hw1 Hw2 Hsame. f_equal. apply words_ext; try done.
    rewrite !length_words_add. lia.
Qed.

Lemma adds_permutation (l1 l2 : list Z) :
  Permutation l1 l2 -> forall r,
  Forall is_uint32 l1 -> well_formed r ->
  foldl repr_add r l1 = foldl repr_add r l2.
Proof.
  induction 1 as [| x l1 l2 _ IH | x y l | l1 l2 l3 H12 IH12 _ IH23];
    intros r Hl Hwf.
  - done.
  - apply Forall_cons in Hl as [Hx Hl]. cbn [foldl].
    apply IH; [done | by apply add_well_formed].
  - apply Forall_cons in Hl as [Hy Hl]. apply Forall_cons in Hl as [Hx Hl].
    cbn [foldl]. by rewrite repr_add_comm.
  - rewrite IH12 by done. apply IH23; [| done].
    by rewrite <- H12.
Qed.

Lemma ldiff_absent w n :
  0 <= n -> Z.testbit w n = false -> Z.ldiff w (2 ^ n) = w.
Proof.
  intros Hn Hbit. apply Z.bits_inj'. intros m Hm.
  rewrite Z.ldiff_spec, pow2_testbit by done.
  destruct (Z.eqb_spec n m) as [<- |]; [by rewrite Hbit | apply andb_true_r].
Qed.

Lemma repr_remove_absent r i :
  0 <= i -> minimal r -> repr_has r i = false -> repr_remove r i = r.
Proof.
  intros Hi Hmin Hhas. pose proof (idx_nonneg i Hi). pose proof (mod64_range i).
  destruct r as [b | ws]; cbn [repr_remove repr_has] in *.
  - f_equal. unfold bitSet64_Has in Hhas.
    destruct (Z.geb_spec i 64); [done |].
    rewrite shl1_pow2, has_bit in Hhas by lia.
    rewrite shl1_pow2 by lia. apply ldiff_absent; [lia | done].
  - destruct (Z.geb_spec (i / 64) (Z.of_nat (length ws))) as [| Hin]; [done |].
    destruct Hmin as [Hlen Hlast].
    pose proof (words_has_absent ws i Hi ltac:(lia) Hhas) as Hbit.
    assert (last_kept ws (i / 64) (shl1 (i mod 64)) (length ws)
            = Z.of_nat (length ws - 1)) as ->.
    { apply last_kept_stop; [lia | | intros j Hj; lia].
      apply not_true_is_false. intros [Hz | [Hslot Hw]]%skipped_true; [done |].
      replace (Z.to_nat (i / 64)) with (length ws - 1)%nat in Hbit by lia.
      rewrite Hw, shl1_pow2, pow2_testbit, Z.eqb_refl in Hbit by lia. done. }
    destruct (Z.leb_spec (Z.of_nat (length ws - 1)) 0); [lia |].
    destruct (Z.ltb_spec (i / 64) (Z.of_nat (length ws - 1) + 1)); [| lia].
    f_equal. rewrite firstn_all2 by lia.
    apply list_eq. intros n.
    destruct (decide (n = Z.to_nat (i / 64))) as [-> | Hne].
    + rewrite list_lookup_alter, decide_True by done.
      destruct (ws !! Z.to_nat (i / 64)) as [w |] eqn:Hw; [| done].
      rewrite list_lookup_total_alt, Hw in Hbit. cbn in Hbit |- *.
      f_equal. rewrite shl1_pow2 by lia. apply ldiff_absent; [lia | done].
    + rewrite list_lookup_alter. by rewrite decide_False by done.
Qed.

Lemma repr_remove_idem r i :
  0 <= i -> repr_remove (repr_remove r i) i = repr_remove r i.
Proof.
  intros Hi.
  assert (repr_has (repr_remove r i) i = false) as Hhas
    by (rewrite repr_has_remove, Z.eqb_refl by done; done).
  destruct r as [b | ws].
  - by apply repr_remove_absent.
  - destruct (Z.ltb_spec (i / 64) (Z.of_nat (length ws))) as [Hin | Hout].
    + apply repr_remove_absent; [done | | done].
      by apply remove_in_range_minimal.
    + cbn [repr_remove]. destruct (Z.geb_spec (i / 64) (Z.of_nat (length ws)));
        [| lia].
      cbn [repr_remove].
      by destruct (Z.geb_spec (i / 64) (Z.of_nat (length ws))); [| lia].
Qed.

(** X3.  Adding an index a second time changes nothing: [S.Add(i).Add(i)]
    has the representation of [S.Add(i)]. *)
Theorem Add_is_idempotent h s r i :
  repr_of h s = Some r -> well_formed r -> is_uint32 i ->
  exists t h1 u h2 r',
    Add s i h = Some (t, h1)
    /\ Add t i h1 = Some (u, h2)
    /\ repr_of h1 t = Some r'
    /\ repr_of h2 u = Some r'.
Proof.
  intros Hr Hwf Hi. pose proof (uint32_nonneg i Hi) as Hi0.
  destruct (Add_run h s r i Hr Hi0) as (t & e1 & Hadd1 & Hrt).
  destruct (Add_run _ t _ i Hrt Hi0) as (u & e2 & Hadd2 & Hru).
  exists t, (h ++ e1), u, ((h ++ e1) ++ e2), (repr_add r i).
  split; [done |]. split; [done |]. split; [done |].
  by rewrite Hru, repr_add_idem.
Qed.

Lemma Add_is_idempotent_witness :
  repr_of [[5; 0; 9]] (largeBitSet (Slice 0 3)) = Some (Heap [5; 0; 9])
  /\ well_formed (Heap [5; 0; 9])
  /\ is_uint32 300
  /\ exists t h1 u h2 r',
       Add (largeBitSet (Slice 0 3)) 300 [[5; 0; 9]] = Some (t, h1)
       /\ Add t 300 h1 = Some (u, h2)
       /\ repr_of h1 t = Some r'
       /\ repr_of h2 u = Some r'.
Proof.
  assert (well_formed (Heap [5; 0; 9])) as Hwf.
  { split; [repeat constructor; unfold is_uint64, modulus; lia | cbn; lia]. }
  assert (is_uint32 300) as Hi by (unfold is_uint32; lia).
  split; [reflexivity |]. split; [exact Hwf |]. split; [exact Hi |].
  exact (Add_is_idempotent [[5; 0; 9]] (largeBitSet (Slice 0 3))
           (Heap [5; 0; 9]) 300 eq_refl Hwf Hi).
Defined.

(** X4.  Two [Add]s commute: [S.Add(i).Add(j)] and [S.Add(j).Add(i)] have
    the same representation, also when one of them promotes or grows the
    value. *)
Theorem Add_commutes h s r i j :
  repr_of h s = Some r -> well_formed r -> is_uint32 i -> is_uint32 j ->
  exists a h1 b h2 c h3 d h4 r',
    Add s i h = Some (a, h1) /\ Add a j h1 = Some (b, h2)
    /\ Add s j h = Some (c, h3) /\ Add c i h3 = Some (d, h4)
    /\ repr_of h2 b = Some r' /\ repr_of h4 d = Some r'.
Proof.
  intros Hr Hwf Hi Hj.
  pose proof (uint32_nonneg i Hi) as Hi0.
  pose proof (uint32_nonneg j Hj) as Hj0.
  destruct (Add_run h s r i Hr Hi0) as (a & e1 & Ha & Hra).
  destruct (Add_run _ a _ j Hra Hj0) as (b & e2 & Hb & Hrb).
  destruct (Add_run h s r j Hr Hj0) as (c & e3 & Hc & Hrc).
  destruct (Add_run _ c _ i Hrc Hi0) as (d & e4 & Hd & Hrd).
  exists a, (h ++ e1), b, ((h ++ e1) ++ e2), c, (h ++ e3), d,
    ((h ++ e3) ++ e4), (repr_add (repr_add r i) j).
  split; [done |]. split; [done |]. split; [done |]. split; [done |].
  split; [done |]. by rewrite Hrd, (repr_add_comm r i j).
Qed.

Lemma Add_commutes_witness :
  repr_of [] (bitSet64 5) = Some (Inline 5)
  /\ well_formed (Inline 5) /\ is_uint32 300 /\ is_uint32 2
  /\ exists a h1 b h2 c h3 d h4 r',
       Add (bitSet64 5) 300 [] = Some (a, h1) /\ Add a 2 h1 = Some (b, h2)
       /\ Add (bitSet64 5) 2 [] = Some (c, h3) /\ Add c 300 h3 = Some (d, h4)
       /\ repr_of h2 b = Some r' /\ repr_of h4 d = Some r'.
Proof.
  assert (well_formed (Inline 5)) as Hwf
    by (unfold well_formed, is_uint64, modulus; lia).
  assert (is_uint32 300) as Hi by (unfold is_uint32; lia).
  assert (is_uint32 2) as Hj by (unfold is_uint32; lia).
  split; [reflexivity |]. split; [exact Hwf |]. split; [exact Hi |].
  split; [exact Hj |].
  exact (Add_commutes [] (bitSet64 5) (Inline 5) 300 2 eq_refl Hwf Hi Hj).
Defined.

(** X5.  Removing an index a second time changes nothing:
    [S.Remove(i).Remove(i)] has the representation of [S.Remove(i)],
    whatever words [S] holds. *)
Theorem Remove_is_idempotent h s r i :
  repr_of h s = Some r -> is_uint32 i ->
  exists t h1 u h2 r',
    Remove s i h = Some (t, h1)
    /\ Remove t i h1 = Some (u, h2)
    /\ repr_of h1 t = Some r'
    /\ repr_of h2 u = Some r'.
Proof.
  intros Hr Hi%uint32_nonneg.
  destruct (Remove_run h s r i Hr Hi) as (t & e1 & Hrem1 & Hrt).
  destruct (Remove_run _ t _ i Hrt Hi) as (u & e2 & Hrem2 & Hru).
  exists t, (h ++ e1), u, ((h ++ e1) ++ e2), (repr_remove r i).
  split; [done |]. split; [done |]. split; [done |].
  by rewrite Hru, repr_remove_idem.
Qed.

Lemma Remove_is_idempotent_witness :
  repr_of [[5; 0; 8; 0]] (largeBitSet (Slice 0 4)) = Some (Heap [5; 0; 8; 0])
  /\ is_uint32 131
  /\ exists t h1 u h2 r',
       Remove (largeBitSet (Slice 0 4)) 131 [[5; 0; 8; 0]] = Some (t, h1)
       /\ Remove t 131 h1 = Some (u, h2)
       /\ repr_of h1 t = Some r'
       /\ repr_of h2 u = Some r'.
Proof.
  assert (is_uint32 131) as Hi by (unfold is_uint32; lia).
  split; [reflexivity |]. split; [exact Hi |].
  exact (Remove_is_idempotent [[5; 0; 8; 0]] (largeBitSet (Slice 0 4))
           (Heap [5; 0; 8; 0]) 131 eq_refl Hi).
Defined.

(** X6.  Removing an index that a value in minimal form does not have gives
    a value with the representation of the receiver. *)
Theorem Remove_of_absent_index h s r i :
  repr_of h s = Some r -> minimal r -> is_uint32 i ->
  Has s i h = Some (false, h) ->
  exists t h', Remove s i h = Some (t, h') /\ repr_of h' t = Some r.
Proof.
  intros Hr Hmin Hi%uint32_nonneg Hhas.
  rewrite (Has_run h s r i Hr Hi) in Hhas. injection Hhas as Hhas.
  destruct (Remove_run h s r i Hr Hi) as (t & ext & Hrem & Hrt).
  exists t, (h ++ ext). split; [done |].
  by rewrite Hrt, repr_remove_absent.
Qed.

Lemma Remove_of_absent_index_witness :
  repr_of [[5; 0; 9]] (largeBitSet (Slice 0 3)) = Some (Heap [5; 0; 9])
  /\ minimal (Heap [5; 0; 9])
  /\ is_uint32 70
  /\ Has (largeBitSet (Slice 0 3)) 70 [[5; 0; 9]] = Some (false, [[5; 0; 9]])
  /\ exists t h',
       Remove (largeBitSet (Slice 0 3)) 70 [[5; 0; 9]] = Some (t, h')
       /\ repr_of h' t = Some (Heap [5; 0; 9]).
Proof.
  assert (minimal (Heap [5; 0; 9])) as Hmin
    by (split; [cbn; lia | by vm_compute]).
  assert (is_uint32 70) as Hi by (unfold is_uint32; lia).
  split; [reflexivity |]. split; [exact Hmin |]. split; [exact Hi |].
  split; [reflexivity |].
  exact (Remove_of_absent_index [[5; 0; 9]] (largeBitSet (Slice 0 3))
           (Heap [5; 0; 9]) 70 eq_refl Hmin Hi eq_refl).
Defined.

(** X7.  The order of the indices given to [WithMany] does not matter: on a
    permutation of the sequence the Builder ends with the same
    representation. *)
Theorem WithMany_order_is_irrelevant h bld r (l1 l2 : list Z) :
  repr_of h (Build bld) = Some r -> well_formed r ->
  Forall is_uint32 l1 -> Permutation l1 l2 ->
  exists b1 h1 b2 h2 r',
    WithMany bld l1 h = Some (b1, h1)
    /\ WithMany bld l2 h = Some (b2, h2)
    /\ repr_of h1 (Build b1) = Some r'
    /\ repr_of h2 (Build b2) = Some r'.
Proof.
  intros Hr Hwf Hl1 Hperm.
  assert (Forall is_uint32 l2) as Hl2 by (by rewrite <- Hperm).
  destruct (WithMany_run l1 h bld r Hr (Forall_uint32_nonneg l1 Hl1))
    as (b1 & h1 & Hrun1 & Hr1).
  destruct (WithMany_run l2 h bld r Hr (Forall_uint32_nonneg l2 Hl2))
    as (b2 & h2 & Hrun2 & Hr2).
  exists b1, h1, b2, h2, (foldl repr_add r l1).
  split; [done |]. split; [done |]. split; [done |].
  by rewrite Hr2, (adds_permutation l1 l2 Hperm r Hl1 Hwf).
Qed.

Lemma WithMany_order_is_irrelevant_witness :
  repr_of [] (Build (bitSet64_Builder 0)) = Some (Inline 0)
  /\ well_formed (Inline 0)
  /\ Forall is_uint32 [10; 100]
  /\ Permutation [10; 100] [100; 10]
  /\ exists b1 h1 b2 h2 r',
       WithMany (bitSet64_Builder 0) [10; 100] [] = Some (b1, h1)
       /\ WithMany (bitSet64_Builder 0) [100; 10] [] = Some (b2, h2)
       /\ repr_of h1 (Build b1) = Some r'
       /\ repr_of h2 (Build b2) = Some r'.
Proof.
  assert (well_formed (Inline 0)) as Hwf
    by (unfold well_formed, is_uint64, modulus; lia).
  assert (Forall is_uint32 [10; 100]) as Hl
    by (repeat constructor; unfold is_uint32; lia).
  assert (Permutation [10; 100] [100; 10]) as Hp by apply perm_swap.
  split; [reflexivity |]. split; [exact Hwf |]. split; [exact Hl |].
  split; [exact Hp |].
  exact (WithMany_order_is_irrelevant [] (bitSet64_Builder 0) (Inline 0)
           [10; 100] [100; 10] eq_refl Hwf Hl Hp).
Defined.

(** ** Properties of the Builder *)

Lemma or_assign_in_place h b ws idx w :
  slice_words h b = Some ws -> 0 <= idx < Z.of_nat (length ws) ->
  exists h',
    or_assign b idx w h = Some (tt, h')
    /\ length h' = length h
    /\ slice_words h' b
       = Some (alter (fun x => Z.lor x w) (Z.to_nat idx) ws)
    /\ (forall l : loc, l <> arr b -> h' !! l = h !! l).
Proof.
  intros Hs Hidx.
  pose proof (slice_words_length _ _ _ Hs) as Hlen.
  destruct (slice_words_Some _ _ _ Hs) as (a & Ha & Hcap & Hws).
  assert (Z.to_nat idx < length ws)%nat as Hj by lia.
  pose proof (slice_words_lookup _ _ _ _ _ Hs Ha Hj) as Hold.
  eexists. split.
  { apply (or_assign_run b idx w h a _ Ha Hold). lia. }
  split; [by rewrite length_insert |]. split.
  - unfold slice_words.
    rewrite list_lookup_insert_eq by (by eapply lookup_lt_Some).
    rewrite length_alter.
    destruct (Z.leb_spec 0 (len b)); [| lia].
    destruct (Z.leb_spec (len b) (Z.of_nat (length a))); [| lia].
    cbn. f_equal. rewrite take_alter_lt by lia. by rewrite <- Hws.
  - intros l Hl. by rewrite list_lookup_insert_ne.
Qed.

Lemma zero_words_has n k : words_has (replicate n 0) k = false.
Proof.
  unfold words_has.
  destruct (replicate n 0 !! Z.to_nat (k / 64)) as [w |] eqn:Hw; [| done].
  apply lookup_replicate in Hw as [-> _]. by rewrite Z.land_0_l.
Qed.

Lemma wrap_int_id z : - 2 ^ 63 <= z < 2 ^ 63 -> wrap_int z = z.
Proof. intros Hz. unfold wrap_int. rewrite Z.mod_small; lia. Qed.

(** X8.  [With] on a heap Builder, for an index whose slot the Builder
    already has, writes the bit into the Builder's own array and returns the
    same slice: nothing is allocated, and a Set obtained earlier by
    [Build()] shares the array and has the index from then on. *)
Theorem Builder_With_writes_in_place h b ws i :
  slice_words h b = Some ws -> is_uint32 i ->
  i / 64 < Z.of_nat (length ws) ->
  exists h',
    bitSetBuilder_With b i h = Some (bitSetBuilder b, h')
    /\ length h' = length h
    /\ slice_words h' b = Some (words_add ws i)
    /\ Has (Build (bitSetBuilder b)) i h' = Some (true, h')
    /\ (forall l : loc, l <> arr b -> h' !! l = h !! l).
Proof.
  intros Hs Hi%uint32_nonneg Hin. pose proof (idx_nonneg i Hi) as Hidx.
  pose proof (slice_words_length _ _ _ Hs) as Hlen.
  destruct (or_assign_in_place h b ws (i / 64) (shl1 (i mod 64)) Hs
              ltac:(lia)) as (h' & Hrun & Hsize & Hs' & Hframe).
  rewrite <- words_add_in in Hs' by lia.
  exists h'. unfold bitSetBuilder_With.
  destruct (Z.ltb_spec (i / 64) (len b)); [| lia].
  rewrite (bind_run _ _ _ _ _ Hrun).
  split; [reflexivity |]. split; [done |]. split; [done |].
  split; [| done].
  cbn [Build Has]. rewrite (largeBitSet_Has_run h' b _ i Hs' Hi).
  by rewrite words_has_add, Z.eqb_refl.
Qed.

Lemma Builder_With_writes_in_place_witness :
  slice_words [[0; 0; 0; 0]] (Slice 0 4) = Some [0; 0; 0; 0]
  /\ is_uint32 70
  /\ 70 / 64 < Z.of_nat (length [0; 0; 0; 0])
  /\ exists h',
       bitSetBuilder_With (Slice 0 4) 70 [[0; 0; 0; 0]]
       = Some (bitSetBuilder (Slice 0 4), h')
       /\ length h' = length [[0; 0; 0; 0]]
       /\ slice_words h' (Slice 0 4) = Some (words_add [0; 0; 0; 0] 70)
       /\ Has (Build (bitSetBuilder (Slice 0 4))) 70 h' = Some (true, h')
       /\ (forall l : loc, l <> arr (Slice 0 4) ->
                           h' !! l = [[0; 0; 0; 0]] !! l).
Proof.
  assert (is_uint32 70) as Hi by (unfold is_uint32; lia).
  assert (70 / 64 < Z.of_nat (length [0; 0; 0; 0])) as Hin
    by (apply Z.ltb_lt; reflexivity).
  split; [reflexivity |]. split; [exact Hi |]. split; [exact Hin |].
  exact (Builder_With_writes_in_place [[0; 0; 0; 0]] (Slice 0 4) [0; 0; 0; 0]
           70 eq_refl Hi Hin).
Defined.

(** X9.  [With] on a heap Builder, for an index beyond the slots the Builder
    has, allocates a new array of exactly [i/64 + 1] words that starts with
    the old words; the old array is left as it was. *)
Theorem Builder_With_grows_by_copy h b ws i :
  slice_words h b = Some ws -> is_uint32 i ->
  Z.of_nat (length ws) <= i / 64 ->
  exists ws',
    bitSetBuilder_With b i h
    = Some (bitSetBuilder (Slice (length h) (i / 64 + 1)), h ++ [ws'])
    /\ Z.of_nat (length ws') = i / 64 + 1
    /\ take (length ws) ws' = ws
    /\ ws' !! Z.to_nat (i / 64) = Some (2 ^ (i mod 64))
    /\ (forall j : nat, Z.of_nat (length ws) <= Z.of_nat j < i / 64 ->
                        ws' !! j = Some 0).
Proof.
  intros Hs Hi%uint32_nonneg Hout. pose proof (idx_nonneg i Hi) as Hidx.
  pose proof (slice_words_length _ _ _ Hs) as Hlen.
  pose proof (mod64_range i) as Hmod.
  pose proof (length_words_add ws i) as Hlen'.
  exists (words_add ws i). split; [| split; [lia | split; [| split]]].
  - unfold bitSetBuilder_With.
    destruct (Z.ltb_spec (i / 64) (len b)); [lia |].
    rewrite (bind_run _ _ _ _ _ (largeBitSet_Add_run _ _ _ _ Hs Hi)).
    cbn [assert_largeBitSet]. unfold bind, ret.
    do 4 f_equal. lia.
  - rewrite words_add_take.
    apply list_eq. intros n. rewrite list_lookup_alter.
    case_decide as Hn; [subst n | done].
    by rewrite lookup_ge_None_2 by lia.
  - rewrite <- shl1_pow2 by done.
    rewrite <- (words_add_target_new ws i) by lia.
    apply list_lookup_lookup_total_lt. lia.
  - intros j Hj. rewrite <- (words_add_other_new ws i j) by lia.
    apply list_lookup_lookup_total_lt. lia.
Qed.

Lemma Builder_With_grows_by_copy_witness :
  slice_words [[8; 0; 4]] (Slice 0 3) = Some [8; 0; 4]
  /\ is_uint32 300
  /\ Z.of_nat (length [8; 0; 4]) <= 300 / 64
  /\ exists ws',
       bitSetBuilder_With (Slice 0 3) 300 [[8; 0; 4]]
       = Some (bitSetBuilder (Slice (length [[8; 0; 4]]) (300 / 64 + 1)),
               [[8; 0; 4]] ++ [ws'])
       /\ Z.of_nat (length ws') = 300 / 64 + 1
       /\ take (length [8; 0; 4]) ws' = [8; 0; 4]
       /\ ws' !! Z.to_nat (300 / 64) = Some (2 ^ (300 mod 64))
       /\ (forall j : nat,
              Z.of_nat (length [8; 0; 4]) <= Z.of_nat j < 300 / 64 ->
              ws' !! j = Some 0).
Proof.
  assert (is_uint32 300) as Hi by (unfold is_uint32; lia).
  assert (Z.of_nat (length [8; 0; 4]) <= 300 / 64) as Hout
    by (apply Z.leb_le; reflexivity).
  split; [reflexivity |]. split; [exact Hi |]. split; [exact Hout |].
  exact (Builder_With_grows_by_copy [[8; 0; 4]] (Slice 0 3) [8; 0; 4] 300
           eq_refl Hi Hout).
Defined.

Lemma NewBuilder_small h c :
  c <= 64 -> NewBuilder c h = Some (bitSet64_Builder 0, h).
Proof.
  intros Hc. unfold NewBuilder. by destruct (Z.leb_spec c 64); [| lia].
Qed.

Lemma NewBuilder_large h c :
  64 < c <= 2 ^ 63 - 64 ->
  NewBuilder c h
  = Some (bitSetBuilder (Slice (length h) ((c + 63) / 64)),
          h ++ [replicate (Z.to_nat ((c + 63) / 64)) 0]).
Proof.
  intros Hc. unfold NewBuilder. destruct (Z.leb_spec c 64); [lia |].
  rewrite wrap_int_id by lia.
  rewrite Z.quot_div_nonneg by lia.
  assert (0 <= (c + 63) / 64) as Hn by (apply Z.div_pos; lia).
  by rewrite (bind_run _ _ _ _ _ (make_run _ h Hn)).
Qed.

Lemma NewBuilder_empty h c :
  c <= 2 ^ 63 - 64 ->
  exists bld h0 r0,
    NewBuilder c h = Some (bld, h0)
    /\ repr_of h0 (Build bld) = Some r0
    /\ (forall k, repr_has r0 k = false).
Proof.
  intros Hc. destruct (Z.leb_spec c 64) as [Hs | Hl].
  - exists (bitSet64_Builder 0), h, (Inline 0).
    split; [by apply NewBuilder_small |]. split; [done |].
    intros k. apply empty_inline_has.
  - assert (0 <= (c + 63) / 64) as Hn by (apply Z.div_pos; lia).
    eexists _, _, (Heap (replicate (Z.to_nat ((c + 63) / 64)) 0)).
    split; [by apply NewBuilder_large |]. split.
    + cbn [Build repr_of].
      pose proof (slice_words_fresh h (replicate (Z.to_nat ((c + 63) / 64)) 0))
        as Hs.
      rewrite length_replicate, Z2Nat.id in Hs by done. by rewrite Hs.
    + intros k. apply zero_words_has.
Qed.



(** X11.  With a 64-bit [int], [NewBuilder(c)] panics when [c] is one of the
    63 largest values of the type: [c + 63] wraps to a negative number and
    [make] refuses a negative length. *)
Theorem NewBuilder_panics_on_overflow h c :
  2 ^ 63 - 64 < c < 2 ^ 63 -> NewBuilder c h = None.
Proof.
  intros Hc. unfold NewBuilder. destruct (Z.leb_spec c 64); [lia |].
  assert (wrap_int (c + 63) = c + 63 - 2 ^ 64) as ->.
  { unfold wrap_int.
    replace (c + 63 + 2 ^ 63) with (c + 63 - 2 ^ 63 + 1 * 2 ^ 64) by lia.
    rewrite Z.mod_add, Z.mod_small by lia. lia. }
  assert (Z.quot (c + 63 - 2 ^ 64) 64 < 0) as Hneg.
  { replace (c + 63 - 2 ^ 64) with (- (2 ^ 64 - c - 63)) by lia.
    rewrite Z.quot_opp_l by lia.
    rewrite Z.quot_div_nonneg by lia.
    assert (1 <= (2 ^ 64 - c - 63) / 64)
      by (apply Z.div_le_lower_bound; lia).
    lia. }
  unfold bind, make. by destruct (Z.ltb_spec (Z.quot (c + 63 - 2 ^ 64) 64) 0);
    [| lia].
Qed.

Lemma NewBuilder_panics_on_overflow_witness :
  2 ^ 63 - 64 < 2 ^ 63 - 1 < 2 ^ 63 /\ NewBuilder (2 ^ 63 - 1) [] = None.
Proof.
  assert (2 ^ 63 - 64 < 2 ^ 63 - 1 < 2 ^ 63) as Hc by lia.
  split; [exact Hc |].
  exact (NewBuilder_panics_on_overflow [] (2 ^ 63 - 1) Hc).
Defined.

(** X12.  Whatever capacity hint of at most [2^32] the Builder starts from, the
    Set it builds has exactly the indices given to [WithMany]. *)
Theorem Builder_has_exactly_the_indices h c (l : list Z) :
  c <= 2 ^ 32 -> Forall is_uint32 l ->
  exists bld h1,
    (let* b := NewBuilder c in WithMany b l) h = Some (bld, h1)
    /\ forall k, is_uint32 k ->
         exists b, Has (Build bld) k h1 = Some (b, h1)
                   /\ (b = true <-> In k l).
Proof.
  intros Hc Hl. pose proof (Forall_uint32_nonneg l Hl) as Hl0.
  destruct (NewBuilder_empty h c ltac:(lia))
    as (bld0 & h0 & r0 & Hnew & Hr0 & Hnone).
  destruct (WithMany_run l h0 bld0 r0 Hr0 Hl0) as (bld & h1 & Hrun & Hr).
  exists bld, h1. split; [by rewrite (bind_run _ _ _ _ _ Hnew) |].
  intros k Hk%uint32_nonneg.
  eexists. split; [by apply Has_run |].
  rewrite repr_has_adds, Hnone, orb_false_r, existsb_exists by done. split.
  - intros (x & Hx & ->%Z.eqb_eq). done.
  - intros Hin. exists k. by rewrite Z.eqb_refl.
Qed.

Lemma Builder_has_exactly_the_indices_witness :
  200 <= 2 ^ 32 /\ Forall is_uint32 [70; 3; 500]
  /\ exists bld h1,
       (let* b := NewBuilder 200 in WithMany b [70; 3; 500]) []
       = Some (bld, h1)
       /\ forall k, is_uint32 k ->
            exists b, Has (Build bld) k h1 = Some (b, h1)
                      /\ (b = true <-> In k [70; 3; 500]).
Proof.
  assert (200 <= 2 ^ 32) as Hc by lia.
  assert (Forall is_uint32 [70; 3; 500]) as Hl
    by (repeat constructor; unfold is_uint32; lia).
  split; [exact Hc |]. split; [exact Hl |].
  exact (Builder_has_exactly_the_indices [] 200 [70; 3; 500] Hc Hl).
Defined.

Lemma small_WithMany_run (l : list Z) : forall h w,
  Forall (fun i => 0 <= i < 64) l ->
  WithMany (bitSet64_Builder w) l h
  = Some (bitSet64_Builder (foldl (fun a i => Z.lor a (2 ^ i)) w l), h).
Proof.
  induction l as [| i l IH]; intros h w Hl; [done |].
  apply Forall_cons in Hl as [Hi Hl]. cbn [WithMany foldl].
  assert (With (bitSet64_Builder w) i h
          = Some (bitSet64_Builder (Z.lor w (2 ^ i)), h)) as Hrun.
  { cbn [With]. unfold bitSet64_With, bitSet64_Add.
    destruct (Z.ltb_spec i 64); [| lia]. by rewrite shl1_pow2 by lia. }
  rewrite (bind_run _ _ _ _ _ Hrun). by apply IH.
Qed.

(** X13.  A Builder that starts with a capacity of at most 64 and is given
    only indices below 64 stays inline: it allocates nothing, and the word
    it builds is the bitwise OR of the indices' bits. *)
Theorem small_Builder_stays_inline h c (l : list Z) :
  c <= 64 -> Forall (fun i => 0 <= i < 64) l ->
  (let* b := NewBuilder c in
   let* b' := WithMany b l in
   ret (Build b')) h
  = Some (bitSet64 (foldl (fun a i => Z.lor a (2 ^ i)) 0 l), h).
Proof.
  intros Hc Hl.
  rewrite (bind_run _ _ _ _ _ (NewBuilder_small h c Hc)).
  by rewrite (bind_run _ _ _ _ _ (small_WithMany_run l h 0 Hl)).
Qed.

Lemma small_Builder_stays_inline_witness :
  10 <= 64 /\ Forall (fun i => 0 <= i < 64) [0; 1; 63]
  /\ (let* b := NewBuilder 10 in
      let* b' := WithMany b [0; 1; 63] in
      ret (Build b')) []
     = Some (bitSet64 (foldl (fun a i => Z.lor a (2 ^ i)) 0 [0; 1; 63]), []).
Proof.
  assert (10 <= 64) as Hc by lia.
  assert (Forall (fun i => 0 <= i < 64) [0; 1; 63]) as Hl
    by (repeat constructor; lia).
  split; [exact Hc |]. split; [exact Hl |].
  exact (small_Builder_stays_inline [] 10 [0; 1; 63] Hc Hl).
Defined.

(** X14.  Every word of a Set made through the interface is a [uint64], and
    a heap value never holds more than [2^26] words, the slots that [uint32]
    indices can name. *)
Theorem produced_words_are_bounded h s :
  produced h s ->
  match s with
  | bitSet64 w => is_uint64 w
  | largeBitSet b =>
      exists ws, slice_words h b = Some ws
                 /\ Forall is_uint64 ws
                 /\ Z.of_nat (length ws) <= 2 ^ 26
  end.
Proof.
  intros Hp. destruct (produced_invariant h s Hp) as (r & Hr & _ & Hwf).
  destruct s as [w | b]; cbn [repr_of] in Hr.
  - by injection Hr as <-.
  - destruct (slice_words h b) as [ws |]; [| discriminate].
    injection Hr as <-. by exists ws.
Qed.

Lemma produced_words_are_bounded_witness :
  produced [[0; 64]] (largeBitSet (Slice 0 2))
  /\ exists ws, slice_words [[0; 64]] (Slice 0 2) = Some ws
                /\ Forall is_uint64 ws
                /\ Z.of_nat (length ws) <= 2 ^ 26.
Proof.
  assert (is_uint32 70) as H70 by (unfold is_uint32; lia).
  assert (produced [[0; 64]] (largeBitSet (Slice 0 2))) as Hp.
  { apply (prod_Add [] New 70 _ _ (prod_New []) H70). reflexivity. }
  split; [exact Hp |].
  exact (produced_words_are_bounded _ _ Hp).
Defined.

(** ** Canonical forms *)

Lemma repr_add_remove_present r i :
  is_uint32 i -> well_formed r -> minimal r -> repr_has r i = true ->
  repr_add (repr_remove r i) i = r.
Proof.
  intros Hi Hwf Hmin Hhas. pose proof (uint32_nonneg i Hi) as Hi0.
  apply has_ext; try done.
  - apply add_well_formed; [done |]. by apply remove_well_formed.
  - apply add_minimal; [done |]. by apply remove_minimal.
  - intros k Hk%uint32_nonneg.
    rewrite repr_has_add, repr_has_remove by done.
    destruct (Z.eqb_spec k i) as [-> |]; [by rewrite Hhas | done].
Qed.

(** X15.  For a value in minimal form that has [i], [Remove(i)] followed by
    [Add(i)] gives back the representation of the receiver. *)
Theorem Remove_then_Add_restores h s r i :
  repr_of h s = Some r -> well_formed r -> minimal r -> is_uint32 i ->
  Has s i h = Some (true, h) ->
  exists t h1 u h2,
    Remove s i h = Some (t, h1)
    /\ Add t i h1 = Some (u, h2)
    /\ repr_of h2 u = Some r.
Proof.
  intros Hr Hwf Hmin Hi Hhas. pose proof (uint32_nonneg i Hi) as Hi0.
  rewrite (Has_run h s r i Hr Hi0) in Hhas. injection Hhas as Hhas.
  destruct (Remove_run h s r i Hr Hi0) as (t & e1 & Hrem & Hrt).
  destruct (Add_run _ t _ i Hrt Hi0) as (u & e2 & Hadd & Hru).
  exists t, (h ++ e1), u, ((h ++ e1) ++ e2).
  split; [done |]. split; [done |].
  by rewrite Hru, repr_add_remove_present.
Qed.

Lemma Remove_then_Add_restores_witness :
  repr_of [[5; 0; 9]] (largeBitSet (Slice 0 3)) = Some (Heap [5; 0; 9])
  /\ well_formed (Heap [5; 0; 9])
  /\ minimal (Heap [5; 0; 9])
  /\ is_uint32 131
  /\ Has (largeBitSet (Slice 0 3)) 131 [[5; 0; 9]] = Some (true, [[5; 0; 9]])
  /\ exists t h1 u h2,
       Remove (largeBitSet (Slice 0 3)) 131 [[5; 0; 9]] = Some (t, h1)
       /\ Add t 131 h1 = Some (u, h2)
       /\ repr_of h2 u = Some (Heap [5; 0; 9]).
Proof.
  assert (well_formed (Heap [5; 0; 9])) as Hwf.
  { split; [repeat constructor; unfold is_uint64, modulus; lia | cbn; lia]. }
  assert (minimal (Heap [5; 0; 9])) as Hmin
    by (split; [cbn; lia | by vm_compute]).
  assert (is_uint32 131) as Hi by (unfold is_uint32; lia).
  split; [reflexivity |]. split; [exact Hwf |]. split; [exact Hmin |].
  split; [exact Hi |]. split; [reflexivity |].
  exact (Remove_then_Add_restores [[5; 0; 9]] (largeBitSet (Slice 0 3))
           (Heap [5; 0; 9]) 131 eq_refl Hwf Hmin Hi eq_refl).
Defined.

(** X16.  [Remove] of an index whose slot the heap value has returns an
    inline value exactly when the receiver has no index at 64 or above other
    than the one removed. *)
Theorem Remove_demotes_exactly h b ws i :
  slice_words h b = Some ws -> well_formed (Heap ws) -> is_uint32 i ->
  i / 64 < Z.of_nat (length ws) ->
  exists t h',
    largeBitSet_Remove b i h = Some (t, h')
    /\ ((exists w, t = bitSet64 w)
        <-> forall k, is_uint32 k -> 64 <= k -> k <> i ->
                      Has (largeBitSet b) k h = Some (false, h)).
Proof.
  intros Hs Hwf Hi Hin. pose proof (uint32_nonneg i Hi) as Hi0.
  destruct (largeBitSet_Remove_run h b ws i Hs Hi0) as (t & ext & Hrun & Hrt).
  exists t, (h ++ ext). split; [done |].
  pose proof (remove_in_range_minimal ws i Hi0 Hin) as Hmin.
  pose proof (remove_well_formed (Heap ws) i Hi0 Hwf) as Hwf'.
  assert (forall k, 0 <= k ->
            Has (largeBitSet b) k h = Some (words_has ws k, h)) as Hhas
    by (intros k Hk; by apply largeBitSet_Has_run).
  pose proof (fun k Hk => repr_has_remove (Heap ws) i k Hi0 Hk) as Hmem.
  destruct (repr_remove (Heap ws) i) as [w | ws'] eqn:Hres.
  - apply inline_of_repr in Hrt as ->. split; [| by exists w].
    intros _ k Hk%uint32_nonneg Hge Hne.
    rewrite Hhas by done. do 2 f_equal.
    specialize (Hmem k Hk). cbn [repr_has] in Hmem.
    unfold bitSet64_Has in Hmem. destruct (Z.geb_spec k 64); [| lia].
    destruct (Z.eqb_spec k i); [done |]. by cbn in Hmem.
  - apply heap_of_repr in Hrt as (s' & -> & _). split.
    { intros [w [=]]. }
    intros Hnone. exfalso.
    destruct (heap_member ws' Hwf' Hmin) as (k & Hk & Hslot & Hk').
    pose proof (uint32_nonneg k Hk) as Hk0.
    specialize (Hmem k Hk0). cbn [repr_has] in Hmem. rewrite Hk' in Hmem.
    destruct Hmin as [Hlen _].
    assert (64 <= k) as Hge.
    { assert (1 <= k / 64) by lia.
      pose proof (Z.mul_div_le k 64 ltac:(lia)). lia. }
    destruct (Z.eqb_spec k i) as [| Hne]; [done |].
    specialize (Hnone k Hk Hge Hne). rewrite Hhas in Hnone by done.
    injection Hnone as Hnone. by rewrite Hnone in Hmem.
Qed.

Lemma Remove_demotes_exactly_witness :
  slice_words [[5; 0; 8; 0]] (Slice 0 4) = Some [5; 0; 8; 0]
  /\ well_formed (Heap [5; 0; 8; 0])
  /\ is_uint32 131
  /\ 131 / 64 < Z.of_nat (length [5; 0; 8; 0])
  /\ exists t h',
       largeBitSet_Remove (Slice 0 4) 131 [[5; 0; 8; 0]] = Some (t, h')
       /\ ((exists w, t = bitSet64 w)
           <-> forall k, is_uint32 k -> 64 <= k -> k <> 131 ->
                         Has (largeBitSet (Slice 0 4)) k [[5; 0; 8; 0]]
                         = Some (false, [[5; 0; 8; 0]])).
Proof.
  assert (well_formed (Heap [5; 0; 8; 0])) as Hwf.
  { split; [repeat constructor; unfold is_uint64, modulus; lia | cbn; lia]. }
  assert (is_uint32 131) as Hi by (unfold is_uint32; lia).
  assert (131 / 64 < Z.of_nat (length [5; 0; 8; 0])) as Hin
    by (apply Z.ltb_lt; reflexivity).
  split; [reflexivity |]. split; [exact Hwf |]. split; [exact Hi |].
  split; [exact Hin |].
  exact (Remove_demotes_exactly [[5; 0; 8; 0]] (Slice 0 4) [5; 0; 8; 0] 131
           eq_refl Hwf Hi Hin).
Defined.

(** X17.  A Set made through the interface that has no index at all is the
    inline value 0, the value [New()] returns. *)
Theorem produced_empty_is_New h s :
  produced h s ->
  (forall k, is_uint32 k -> Has s k h = Some (false, h)) ->
  s = New.
Proof.
  intros Hp Hnone.
  destruct (produced_invariant h s Hp) as (r & Hr & Hmin & Hwf).
  assert (r = Inline 0) as ->.
  { apply has_ext; [done | by compute | done | done |].
    intros k Hk. specialize (Hnone k Hk).
    rewrite (Has_run h s r k Hr (uint32_nonneg k Hk)) in Hnone.
    injection Hnone as ->. cbn [repr_has]. by rewrite empty_inline_has. }
  by apply inline_of_repr in Hr.
Qed.

Lemma produced_empty_is_New_witness :
  produced [[0; 64]] (bitSet64 0)
  /\ (forall k, is_uint32 k ->
                Has (bitSet64 0) k [[0; 64]] = Some (false, [[0; 64]]))
  /\ bitSet64 0 = New.
Proof.
  assert (is_uint32 70) as H70 by (unfold is_uint32; lia).
  assert (produced [[0; 64]] (bitSet64 0)) as Hp.
  { apply (prod_Remove [[0; 64]] (largeBitSet (Slice 0 2)) 70 _ _);
      [| exact H70 | reflexivity].
    apply (prod_Add [] New 70 _ _ (prod_New []) H70). reflexivity. }
  assert (forall k, is_uint32 k ->
            Has (bitSet64 0) k [[0; 64]] = Some (false, [[0; 64]])) as Hnone.
  { intros k _. cbn [Has]. unfold ret. by rewrite empty_inline_has. }
  split; [exact Hp |]. split; [exact Hnone |].
  exact (produced_empty_is_New _ _ Hp Hnone).
Defined.
